(** * Streams and devices of [device.cpp]

    A shallow embedding of the classes [Stream], [Device], [Mixer],
    [Reactor] and [Divider], and the properties of their port limits and
    mass balances.

    - [double] is IEEE 754 binary64: Rocq's primitive [float], whose
      operations are specified by [FloatAxioms].
    - [int] and [size_t] values are integers in [Z]; the implicit
      conversions of the source are written out ([to_size_t], [to_int],
      [double_of_Z]).
    - A [shared_ptr<Stream>] is a handle into a store of [Stream] objects;
      the same handle may sit in several port vectors, so a write through
      one port is seen through every other. A stream is created with its
      [mass_flow] not yet set, so the properties hold for every store.
    - A member function is a computation over the state it touches: it
      returns a value, throws, or runs into undefined behaviour (an
      unchecked index past the end, an empty [shared_ptr]), and leaves the
      state as the statements executed so far made it.
    - Printing, the stream counter and the test drivers are left out. *)

From Stdlib Require Import ZArith Lia Floats.
From stdpp Require Import gmap strings list pretty.

Open Scope Z_scope.

(** ** Integers and doubles *)

Definition INT_MIN : Z := - 2 ^ 31.
Definition INT_MAX : Z := 2 ^ 31 - 1.
Definition PTRDIFF_MAX : Z := 2 ^ 63 - 1.

(** The values of type [int]. *)
Definition is_int (z : Z) : Prop := INT_MIN <= z <= INT_MAX.

(** [int] to [size_t], as the usual arithmetic conversions do in
    [inputs.size() < inputAmount] and in [inputs.at(index)]. *)
Definition to_size_t (z : Z) : Z := z mod 2 ^ 64.

(** [size_t] to [int], as in [int getInputCount() { return inputs.size(); }]. *)
Definition to_int (z : Z) : Z := (z + 2 ^ 31) mod 2 ^ 32 - 2 ^ 31.

Definition double : Type := float.
Bind Scope float_scope with double.

(** Integer to [double], rounded to nearest even. *)
Definition double_of_Z (z : Z) : double :=
  SF2Prim (binary_normalize prec emax z 0 false).

Definition MIXER_OUTPUTS : Z := 1.

(** [const float POSSIBLE_ERROR = 0.01]: the binary32 value nearest to 0.01,
    promoted to [double] where it is compared. *)
Definition POSSIBLE_ERROR : double := 0x1.47ae14p-7%float.

(** ** Exceptions and computations *)

Inductive exn : Type :=
  | ExnCStr (msg : string)     (* throw "..."  : a [const char*] *)
  | ExnString (msg : string)   (* throw "..."s : a [std::string] *)
  | ExnOutOfRange.             (* [std::out_of_range], from [vector::at] *)

Inductive outcome (A : Type) : Type :=
  | Ok (a : A)
  | Throw (e : exn)
  | Undefined.
Arguments Ok {A} a.
Arguments Throw {A} e.
Arguments Undefined {A}.

(** A computation over a state [S]. *)
Definition M (S A : Type) : Type := S -> outcome A * S.

Definition ret {S A} (a : A) : M S A := fun s => (Ok a, s).

Definition bind {S A B} (c : M S A) (k : A -> M S B) : M S B :=
  fun s =>
    match c s with
    | (Ok a, s') => k a s'
    | (Throw e, s') => (Throw e, s')
    | (Undefined, s') => (Undefined, s')
    end.

Definition throw {S A} (e : exn) : M S A := fun s => (Throw e, s).
Definition lift {S A} (o : outcome A) : M S A := fun s => (o, s).

Declare Scope comp_scope.
Delimit Scope comp_scope with comp.
Notation "'do' x <- c ; k" := (bind c (fun x => k))
  (at level 10, x name, c at level 100, k at level 200) : comp_scope.
Notation "'run' c ; k" := (bind c (fun _ => k))
  (at level 10, c at level 100, k at level 200) : comp_scope.
Open Scope comp_scope.

(** The range-based [for] over a vector. *)
Fixpoint for_each {S A} (body : A -> M S unit) (v : list A) : M S unit :=
  match v with
  | [] => ret tt
  | x :: v' => run body x; for_each body v'
  end.

(** [for (int i = lo; i < hi; i++)], with [n] the iterations left. *)
Fixpoint for_upto {S} (body : Z -> M S unit) (i : Z) (n : nat) : M S unit :=
  match n with
  | O => ret tt
  | S n' => run body i; for_upto body (i + 1) n'
  end.

Definition for_range {S} (lo hi : Z) (body : Z -> M S unit) : M S unit :=
  for_upto body lo (Z.to_nat (hi - lo)).

(** ** Stream *)

Record Stream : Type := mkStream { mass_flow : double; name : string }.

(** A [shared_ptr<Stream>]. *)
Definition ptr : Type := nat.

(** The [Stream] objects alive, by handle. *)
Abbreviation heap := (gmap ptr Stream).

(** [p->getMassFlow()]; a handle that owns no object is an empty
    [shared_ptr], and going through it is undefined. *)
Definition getMassFlow (p : ptr) : M heap double :=
  fun h => match h !! p with
           | Some s => (Ok (mass_flow s), h)
           | None => (Undefined, h)
           end.

Definition setMassFlow (p : ptr) (m : double) : M heap unit :=
  fun h => match h !! p with
           | Some s => (Ok tt, <[p := mkStream m (name s)]> h)
           | None => (Undefined, h)
           end.

Definition getName (p : ptr) : M heap string :=
  fun h => match h !! p with
           | Some s => (Ok (name s), h)
           | None => (Undefined, h)
           end.

Definition setName (p : ptr) (n : string) : M heap unit :=
  fun h => match h !! p with
           | Some s => (Ok tt, <[p := mkStream (mass_flow s) n]> h)
           | None => (Undefined, h)
           end.

(** ** std::vector<shared_ptr<Stream>> *)

Definition size (v : list ptr) : Z := Z.of_nat (length v).

Definition empty (v : list ptr) : bool :=
  match v with
  | [] => true
  | _ :: _ => false
  end.

(** [v[i]] for an index already converted to [size_t]: unchecked, and
    undefined past the end. *)
Definition index (v : list ptr) (i : Z) : outcome ptr :=
  match v !! Z.to_nat i with
  | Some p => Ok p
  | None => Undefined
  end.

(** [v.at(i)]: the range check, then [v[i]]. *)
Definition at_ (v : list ptr) (i : Z) : outcome ptr :=
  if i <? size v then index v i else Throw ExnOutOfRange.

(** ** Device *)

Record Device : Type := mkDevice {
  inputs : list ptr;
  outputs : list ptr;
  inputAmount : Z;
  outputAmount : Z
}.

Definition push_input (s : ptr) (d : Device) : Device :=
  mkDevice (inputs d ++ [s]) (outputs d) (inputAmount d) (outputAmount d).

Definition push_output (s : ptr) (d : Device) : Device :=
  mkDevice (inputs d) (outputs d ++ [s]) (inputAmount d) (outputAmount d).

Definition Device_addInput (s : ptr) : M Device unit :=
  fun d =>
    if size (inputs d) <? to_size_t (inputAmount d)
    then (Ok tt, push_input s d)
    else (Throw (ExnCStr "INPUT STREAM LIMIT!"), d).

Definition Device_addOutput (s : ptr) : M Device unit :=
  fun d =>
    if size (outputs d) <? to_size_t (outputAmount d)
    then (Ok tt, push_output s d)
    else (Throw (ExnCStr "OUTPUT STREAM LIMIT!"), d).

Definition getInput (d : Device) (index : Z) : outcome ptr :=
  at_ (inputs d) (to_size_t index).

Definition getOutput (d : Device) (index : Z) : outcome ptr :=
  at_ (outputs d) (to_size_t index).

Definition getInputCount (d : Device) : Z := to_int (size (inputs d)).
Definition getOutputCount (d : Device) : Z := to_int (size (outputs d)).

(** ** Mixer *)

Record Mixer : Type := mkMixer { Mixer_base : Device; _inputs_count : Z }.

Definition Mixer_new (inputs_count : Z) : Mixer :=
  mkMixer (mkDevice [] [] inputs_count MIXER_OUTPUTS) inputs_count.

Definition Mixer_addInput (s : ptr) : M Mixer unit :=
  fun this =>
    if size (inputs (Mixer_base this)) =? to_size_t (_inputs_count this)
    then (Throw (ExnString "Too much inputs"), this)
    else (Ok tt, mkMixer (push_input s (Mixer_base this)) (_inputs_count this)).

Definition Mixer_addOutput (s : ptr) : M Mixer unit :=
  fun this =>
    if size (outputs (Mixer_base this)) =? to_size_t MIXER_OUTPUTS
    then (Throw (ExnString "Too much outputs"), this)
    else (Ok tt, mkMixer (push_output s (Mixer_base this)) (_inputs_count this)).

(** [sum_mass_flow += input_stream->getMassFlow()] over the inputs. *)
Fixpoint sum_inputs (v : list ptr) (sum_mass_flow : double) : M heap double :=
  match v with
  | [] => ret sum_mass_flow
  | input_stream :: v' =>
      do m <- getMassFlow input_stream;
      sum_inputs v' (sum_mass_flow + m)%float
  end.

Definition Mixer_updateOutputs (this : Mixer) : M heap unit :=
  let d := Mixer_base this in
  do sum_mass_flow <- sum_inputs (inputs d) 0%float;
  if empty (outputs d)
  then throw (ExnString "Should set outputs before update")
  else
    let output_mass := (sum_mass_flow / double_of_Z (size (outputs d)))%float in
    for_each (fun output_stream => setMassFlow output_stream output_mass)
             (outputs d).

(** ** Reactor *)

Record Reactor : Type := mkReactor { Reactor_base : Device }.

Definition Reactor_new (isDoubleReactor : bool) : Reactor :=
  mkReactor (mkDevice [] [] 1 (if isDoubleReactor then 2 else 1)).

Definition Reactor_updateOutputs (this : Reactor) : M heap unit :=
  let d := Reactor_base this in
  do p <- lift (at_ (inputs d) (to_size_t 0));
  do inputMass <- getMassFlow p;
  for_range 0 (outputAmount d) (fun i =>
    let outputLocal :=
      (inputMass * (1 / double_of_Z (outputAmount d)))%float in
    do q <- lift (at_ (outputs d) (to_size_t i));
    setMassFlow q outputLocal).

(** ** Divider *)

Record Divider : Type := mkDivider { Divider_base : Device }.

Definition Divider_new (outputs_count : Z) : Divider :=
  mkDivider (mkDevice [] [] 1 outputs_count).

Definition Divider_message : string :=
  "Делитель должен иметь входные и выходные данные до обновления.".

Definition Divider_updateOutputs (this : Divider) : M heap unit :=
  let d := Divider_base this in
  if empty (inputs d) || empty (outputs d)
  then throw (ExnCStr Divider_message)
  else
    do p <- lift (index (inputs d) (to_size_t 0));
    do input_mass <- getMassFlow p;
    let output_mass := (input_mass / double_of_Z (size (outputs d)))%float in
    for_each (fun output_stream => setMassFlow output_stream output_mass)
             (outputs d).

(** ** The three kinds of device behind [Device::updateOutputs] *)

Inductive device : Type :=
  | DMixer (m : Mixer)
  | DReactor (r : Reactor)
  | DDivider (d : Divider).

Definition base (dev : device) : Device :=
  match dev with
  | DMixer m => Mixer_base m
  | DReactor r => Reactor_base r
  | DDivider d => Divider_base d
  end.

Definition updateOutputs (dev : device) : M heap unit :=
  match dev with
  | DMixer m => Mixer_updateOutputs m
  | DReactor r => Reactor_updateOutputs r
  | DDivider d => Divider_updateOutputs d
  end.

(** ** Vocabulary of the specification *)

Inductive port_kind : Type := Input | Output.

Inductive error_kind : Type :=
  | PortLimitExceeded (kind : port_kind)
  | PrecursorMissing
  | OutOfRange.

(** Which error of the specification an exception of the source stands for. *)
Definition classify (e : exn) : option error_kind :=
  match e with
  | ExnCStr msg =>
      if String.eqb msg "INPUT STREAM LIMIT!" then Some (PortLimitExceeded Input)
      else if String.eqb msg "OUTPUT STREAM LIMIT!" then Some (PortLimitExceeded Output)
      else if String.eqb msg Divider_message then Some PrecursorMissing
      else None
  | ExnString msg =>
      if String.eqb msg "Too much inputs" then Some (PortLimitExceeded Input)
      else if String.eqb msg "Too much outputs" then Some (PortLimitExceeded Output)
      else if String.eqb msg "Should set outputs before update" then Some PrecursorMissing
      else None
  | ExnOutOfRange => Some OutOfRange
  end.

(** The mass flow of the stream behind a handle. *)
Definition flow (h : heap) (p : ptr) : option double := mass_flow <$> h !! p.

(** The mass flows behind a vector of handles, when all of them are live. *)
Definition flows (h : heap) (v : list ptr) : option (list double) :=
  mapM (flow h) v.

Definition all_live (h : heap) (v : list ptr) : Prop :=
  Forall (fun p => is_Some (h !! p)) v.

(** The sum of a list of doubles, added left to right from 0 as the
    source accumulates it. *)
Definition total (fs : list double) : double := fold_left PrimFloat.add fs 0%float.

Definition with_flow (m : double) (s : Stream) : Stream := mkStream m (name s).

(** The store after [m] was written through every handle of [v]. *)
Definition store_all (m : double) (v : list ptr) (h : heap) : heap :=
  foldl (fun h' p => alter (with_flow m) p h') h v.

(** ** Attaching streams to each kind of device

    [Reactor] and [Divider] inherit [addInput] and [addOutput] from
    [Device]; [Mixer] hides them with its own. *)

Definition on_base {T} (get : T -> Device) (set : Device -> T -> T)
    (c : M Device unit) : M T unit :=
  fun this => let '(r, d) := c (get this) in (r, set d this).

Definition Reactor_addInput (s : ptr) : M Reactor unit :=
  on_base Reactor_base (fun d _ => mkReactor d) (Device_addInput s).
Definition Reactor_addOutput (s : ptr) : M Reactor unit :=
  on_base Reactor_base (fun d _ => mkReactor d) (Device_addOutput s).
Definition Divider_addInput (s : ptr) : M Divider unit :=
  on_base Divider_base (fun d _ => mkDivider d) (Device_addInput s).
Definition Divider_addOutput (s : ptr) : M Divider unit :=
  on_base Divider_base (fun d _ => mkDivider d) (Device_addOutput s).

(** ** What the constructors establish and attaching preserves *)

Definition Mixer_inv (this : Mixer) : Prop :=
  is_int (_inputs_count this) /\
  inputAmount (Mixer_base this) = _inputs_count this /\
  outputAmount (Mixer_base this) = MIXER_OUTPUTS.

Definition Reactor_inv (this : Reactor) : Prop :=
  inputAmount (Reactor_base this) = 1 /\
  (outputAmount (Reactor_base this) = 1 \/ outputAmount (Reactor_base this) = 2).

Definition Divider_inv (this : Divider) : Prop :=
  inputAmount (Divider_base this) = 1 /\
  is_int (outputAmount (Divider_base this)).

Definition device_inv (dev : device) : Prop :=
  match dev with
  | DMixer m => Mixer_inv m
  | DReactor r => Reactor_inv r
  | DDivider d => Divider_inv d
  end.

(** Every [std::vector] is shorter than this. *)
Definition vector_ok (v : list ptr) : Prop := size v <= PTRDIFF_MAX.

(** 2^31 handles of one stream: more than an [int] counts. *)
Definition many_streams : list ptr := replicate (Z.to_nat (2 ^ 31)) 1%nat.

(** ** Comparing doubles as the tests of the source do *)

(** [abs(a - b) < POSSIBLE_ERROR]. *)
Definition close_to (a b : double) : bool :=
  (abs (a - b) <? POSSIBLE_ERROR)%float.

(** Positive and finite. *)
Definition positive_finite (x : double) : bool :=
  ((0 <? x) && (x <? infinity))%float.

(** Finite and at least [2^-1021], so that [x / 2] is a normal number. *)
Definition halves_exactly (x : double) : bool :=
  ((0x1p-1021 <=? x) && (x <? infinity))%float.

(** A value of the smallest exponent, zero included. *)
Definition tiny (s : bool) (q : Z) : spec_float :=
  match q with
  | Z0 => S754_zero s
  | Zpos r => S754_finite s r (-1074)
  | Zneg _ => S754_nan
  end.

(** ** The value of a double, for bounding rounding errors

    Every finite double is a whole number of units of [2^-1074], the
    smallest positive double. *)

(** The magnitude of a finite double in units of [2^-1074]. *)
Definition val (x : spec_float) : Z :=
  match x with
  | S754_finite _ m e => Z.pos m * 2 ^ (e + 1074)
  | _ => 0
  end.

(** [+0] or a positive finite double. *)
Definition nonneg_finite (x : spec_float) : bool :=
  match x with
  | S754_zero false | S754_finite false _ _ => true
  | _ => false
  end.

Definition fval (x : double) : Z := val (Prim2SF x).

Definition nonneg (x : double) : Prop := nonneg_finite (Prim2SF x) = true.

(** The double [2^E]. *)
Definition pow2 (E : Z) : double := Z.ldexp 1 E.

(** ** Creating a stream *)

(** [std::to_string] of an [int]: its decimal digits, after a minus sign
    when it is negative. *)
Definition to_string (z : Z) : string := pretty z.

(** [Stream(int s)]: the constructor sets the name and nothing else, so
    the mass flow is whatever the memory held. *)
Definition Stream_new (s : Z) (indeterminate : double) : Stream :=
  mkStream indeterminate ("s" +:+ to_string s).

(** ** Wiring a device: a sequence of attach calls

    A caller that catches the exception of a refused call goes on with
    the device as the call left it. *)

Inductive attach : Type :=
  | AddInput (s : ptr)
  | AddOutput (s : ptr).

Definition Device_attach (a : attach) : M Device unit :=
  match a with
  | AddInput s => Device_addInput s
  | AddOutput s => Device_addOutput s
  end.

Definition Mixer_attach (a : attach) : M Mixer unit :=
  match a with
  | AddInput s => Mixer_addInput s
  | AddOutput s => Mixer_addOutput s
  end.

(** The state a computation leaves, whatever its outcome. *)
Definition after {S A} (c : M S A) (s : S) : S := snd (c s).

Definition Device_wire (calls : list attach) (d : Device) : Device :=
  foldl (fun d' a => after (Device_attach a) d') d calls.

Definition Mixer_wire (calls : list attach) (this : Mixer) : Mixer :=
  foldl (fun m a => after (Mixer_attach a) m) this calls.

(** No port list is longer than its capacity. *)
Definition within_capacity (d : Device) : Prop :=
  size (inputs d) <= inputAmount d /\ size (outputs d) <= outputAmount d.

(** ** Computations: basic facts *)

(** Settling an integer test of the source from the arithmetic at hand. *)
Ltac Z_test :=
  match goal with
  | |- context [?a <? ?b] => destruct (Z.ltb_spec a b); try lia
  | |- context [?a <=? ?b] => destruct (Z.leb_spec a b); try lia
  | |- context [?a =? ?b] => destruct (Z.eqb_spec a b); try lia
  end.


Section Computations.
Context {S : Type}.

Lemma bind_ok {A B} (c : M S A) (k : A -> M S B) s a s' :
  c s = (Ok a, s') -> bind c k s = k a s'.
Proof. unfold bind. by intros ->. Qed.

End Computations.

(** ** The store *)

Lemma getMassFlow_live h p s :
  h !! p = Some s -> getMassFlow p h = (Ok (mass_flow s), h).
Proof. unfold getMassFlow. by intros ->. Qed.

Lemma setMassFlow_live h p m :
  is_Some (h !! p) -> setMassFlow p m h = (Ok tt, alter (with_flow m) p h).
Proof.
  intros [s Hs]. unfold setMassFlow. rewrite Hs. f_equal.
  apply map_eq. intros q. rewrite lookup_alter, lookup_insert.
  destruct (decide (p = q)) as [->|]; [by rewrite Hs | done].
Qed.

Lemma store_all_lookup m v h p :
  store_all m v h !! p =
  if decide (p ∈ v) then with_flow m <$> h !! p else h !! p.
Proof.
  unfold store_all. revert h. induction v as [|q v IH]; intros h.
  - destruct (decide (p ∈ [])) as [Hin|]; [by apply elem_of_nil in Hin | done].
  - cbn [foldl]. rewrite IH, lookup_alter.
    destruct (decide (p ∈ q :: v)) as [Hin|Hout].
    + destruct (decide (p ∈ v)) as [|Hv].
      * destruct (decide (q = p)) as [->|]; [|done]. by destruct (h !! p).
      * apply elem_of_cons in Hin as [->|]; [|done]. by rewrite decide_True.
    + apply not_elem_of_cons in Hout as [Hne Hv].
      by rewrite (decide_False (P := p ∈ v)), decide_False.
Qed.

Lemma store_all_flow m v h p :
  p ∈ v -> is_Some (h !! p) -> flow (store_all m v h) p = Some m.
Proof.
  intros Hin [s Hs]. unfold flow. rewrite store_all_lookup.
  rewrite decide_True by done. by rewrite Hs.
Qed.

Lemma store_all_frame m v h p : p ∉ v -> store_all m v h !! p = h !! p.
Proof. intros. rewrite store_all_lookup. by rewrite decide_False. Qed.

Lemma store_all_name m v h p : name <$> store_all m v h !! p = name <$> h !! p.
Proof.
  rewrite store_all_lookup. destruct (decide (p ∈ v)); [|done].
  by destruct (h !! p).
Qed.

(** Writing one value through every handle of a vector of live handles. *)
Lemma for_each_setMassFlow m v h :
  all_live h v ->
  for_each (fun p => setMassFlow p m) v h = (Ok tt, store_all m v h).
Proof.
  unfold store_all. revert h. induction v as [|p v IH]; intros h Hlive; simpl.
  - done.
  - inversion Hlive as [|? ? Hp Hv]; subst.
    erewrite bind_ok by (by apply setMassFlow_live).
    apply IH. eapply Forall_impl; [exact Hv|]. intros q Hq. simpl in *.
    rewrite lookup_alter. destruct (decide (p = q)); [|done].
    subst. by rewrite fmap_is_Some.
Qed.

Lemma flows_cons h p v :
  flows h (p :: v) =
  match flow h p, flows h v with
  | Some f, Some fs => Some (f :: fs)
  | _, _ => None
  end.
Proof.
  unfold flows. simpl. destruct (flow h p); simpl; [|done].
  by destruct (mapM (flow h) v).
Qed.

(** The accumulation loop of the mixer reads every input once, in
    attachment order, and leaves the store alone. *)
Lemma sum_inputs_flows h v fs acc :
  flows h v = Some fs ->
  sum_inputs v acc h = (Ok (fold_left PrimFloat.add fs acc), h).
Proof.
  revert fs acc. induction v as [|p v IH]; intros fs acc.
  - by intros [= <-].
  - rewrite flows_cons. unfold flow at 1.
    destruct (h !! p) as [s|] eqn:Hp; simpl; [|done].
    destruct (flows h v) as [fs'|] eqn:Hv; [|done]. intros [= <-].
    erewrite bind_ok by (by apply getMassFlow_live). simpl. by apply IH.
Qed.

Lemma sum_inputs_store h v acc r h' :
  sum_inputs v acc h = (r, h') -> h' = h.
Proof.
  revert acc. induction v as [|p v IH]; intros acc; simpl.
  - unfold ret. by intros [= _ <-].
  - unfold bind, getMassFlow. destruct (h !! p); [apply IH|by intros [= _ <-]].
Qed.

Lemma size_nonneg v : 0 <= size v.
Proof. unfold size. lia. Qed.

(** ** Mixer *)

Lemma Mixer_updateOutputs_run (this : Mixer) h fs :
  flows h (inputs (Mixer_base this)) = Some fs ->
  Mixer_updateOutputs this h =
  if empty (outputs (Mixer_base this))
  then (Throw (ExnString "Should set outputs before update"), h)
  else for_each
         (fun p => setMassFlow p
            (total fs / double_of_Z (size (outputs (Mixer_base this))))%float)
         (outputs (Mixer_base this)) h.
Proof.
  intros Hfs. unfold Mixer_updateOutputs.
  erewrite bind_ok by (by apply sum_inputs_flows).
  fold (total fs). by destruct (empty _).
Qed.

(** C1. [Mixer::updateOutputs], the inputs being live streams with flows
    [fs]: with no output attached it throws the precursor-missing
    exception; otherwise it succeeds, every attached output carries
    (sum of the inputs' flows) / (number of attached outputs) and no other
    stream is touched; with no input attached the sum is 0 and a single
    output ends at 0, without error. *)
Theorem Mixer_updateOutputs_spec (this : Mixer) (h : heap) (fs : list double) :
  flows h (inputs (Mixer_base this)) = Some fs ->
  (outputs (Mixer_base this) = [] ->
     exists e, Mixer_updateOutputs this h = (Throw e, h) /\
               classify e = Some PrecursorMissing)
  /\ (outputs (Mixer_base this) <> [] ->
      all_live h (outputs (Mixer_base this)) ->
      exists h', Mixer_updateOutputs this h = (Ok tt, h') /\
        (forall o, o ∈ outputs (Mixer_base this) ->
           flow h' o =
           Some (total fs / double_of_Z (size (outputs (Mixer_base this))))%float) /\
        (forall p, p ∉ outputs (Mixer_base this) -> h' !! p = h !! p))
  /\ (inputs (Mixer_base this) = [] ->
      forall o, outputs (Mixer_base this) = [o] -> is_Some (h !! o) ->
      total fs = 0%float /\
      exists h', Mixer_updateOutputs this h = (Ok tt, h') /\
                 flow h' o = Some 0%float).
Proof.
  intros Hfs. rewrite (Mixer_updateOutputs_run _ _ _ Hfs). repeat split.
  - intros ->. simpl. eexists. split; [done|]. by vm_compute.
  - intros Hne Hlive. destruct (outputs (Mixer_base this)) as [|o v] eqn:Ho; [done|].
    cbn [empty]. rewrite for_each_setMassFlow by done.
    eexists. split; [done|]. split.
    + intros p Hp. apply store_all_flow; [done|].
      by eapply Forall_forall in Hlive.
    + intros p Hp. by apply store_all_frame.
  - rewrite H in Hfs. by injection Hfs as <-.
  - rewrite H0. cbn [empty]. rewrite for_each_setMassFlow by (by repeat constructor).
    eexists. split; [done|]. rewrite store_all_flow; [|set_solver|done].
    rewrite H in Hfs. injection Hfs as <-. by vm_compute.
Qed.

(** Scenario 1 of the specification: Mixer(2), inputs 10.0 and 5.0, one
    output. *)
Lemma Mixer_updateOutputs_spec_witness :
  let this := mkMixer (mkDevice [1%nat; 2%nat] [3%nat] 2 1) 2 in
  let h : heap := <[1%nat := mkStream 10 "s1"]>
                  (<[2%nat := mkStream 5 "s2"]>
                  (<[3%nat := mkStream 0 "s3"]> ∅)) in
  flows h (inputs (Mixer_base this)) = Some [10; 5]%float /\
  exists h', Mixer_updateOutputs this h = (Ok tt, h') /\
             flow h' 3%nat = Some 15%float.
Proof.
  intros this h.
  assert (Hfs : flows h (inputs (Mixer_base this)) = Some [10; 5]%float)
    by reflexivity.
  split; [exact Hfs|].
  destruct (Mixer_updateOutputs_spec this h _ Hfs) as (_ & Hrun & _).
  destruct Hrun as (h' & Hh' & Hout & _).
  - discriminate.
  - repeat constructor; by eexists.
  - exists h'. split; [exact Hh'|]. rewrite (Hout 3%nat); [reflexivity|].
    apply list_elem_of_here.
Defined.

(** ** Divider *)

Lemma Divider_updateOutputs_run (this : Divider) h p v m :
  inputs (Divider_base this) = p :: v ->
  outputs (Divider_base this) <> [] ->
  flow h p = Some m ->
  Divider_updateOutputs this h =
  for_each
    (fun o => setMassFlow o
       (m / double_of_Z (size (outputs (Divider_base this))))%float)
    (outputs (Divider_base this)) h.
Proof.
  intros Hin Hout Hm. unfold Divider_updateOutputs. rewrite Hin. cbn [empty orb].
  destruct (outputs (Divider_base this)) as [|o w] eqn:Ho; [done|]. cbn [empty].
  unfold flow in Hm. destruct (h !! p) as [s|] eqn:Hp; [|done].
  injection Hm as <-.
  erewrite (bind_ok (lift _)) by reflexivity.
  by erewrite bind_ok by (by apply getMassFlow_live).
Qed.

(** C2. [Divider::updateOutputs] throws the precursor-missing exception
    when no input or no output is attached; otherwise every attached
    output receives the flow of the first input divided by the number of
    attached outputs, whatever the declared capacity [outputAmount], and
    no other stream is touched. *)
Theorem Divider_updateOutputs_spec (this : Divider) (h : heap) :
  (inputs (Divider_base this) = [] \/ outputs (Divider_base this) = [] ->
     exists e, Divider_updateOutputs this h = (Throw e, h) /\
               classify e = Some PrecursorMissing)
  /\ (forall p v m,
        inputs (Divider_base this) = p :: v ->
        outputs (Divider_base this) <> [] ->
        flow h p = Some m ->
        all_live h (outputs (Divider_base this)) ->
        exists h', Divider_updateOutputs this h = (Ok tt, h') /\
          (forall o, o ∈ outputs (Divider_base this) ->
             flow h' o =
             Some (m / double_of_Z (size (outputs (Divider_base this))))%float) /\
          (forall q, q ∉ outputs (Divider_base this) -> h' !! q = h !! q)).
Proof.
  split.
  - intros Hemp. exists (ExnCStr Divider_message). split; [|by vm_compute].
    unfold Divider_updateOutputs.
    destruct Hemp as [-> | ->]; [done|]. by rewrite orb_true_r.
  - intros p v m Hin Hout Hm Hlive.
    rewrite (Divider_updateOutputs_run _ _ _ _ _ Hin Hout Hm).
    rewrite for_each_setMassFlow by done.
    eexists. split; [done|]. split.
    + intros o Ho. apply store_all_flow; [done|].
      by eapply Forall_forall in Hlive.
    + intros q Hq. by apply store_all_frame.
Qed.

(** A Divider(3) with only two of its outputs attached halves the input. *)
Lemma Divider_updateOutputs_spec_witness :
  let this := mkDivider (mkDevice [1%nat] [2%nat; 3%nat] 1 3) in
  let h : heap := <[1%nat := mkStream 12 "s1"]>
                  (<[2%nat := mkStream 0 "s2"]>
                  (<[3%nat := mkStream 0 "s3"]> ∅)) in
  (exists e, Divider_updateOutputs (Divider_new 3) h = (Throw e, h) /\
             classify e = Some PrecursorMissing) /\
  exists h', Divider_updateOutputs this h = (Ok tt, h') /\
             flow h' 2%nat = Some 6%float /\ flow h' 3%nat = Some 6%float.
Proof.
  intros this h. split.
  - apply (Divider_updateOutputs_spec (Divider_new 3) h). by left.
  - destruct (Divider_updateOutputs_spec this h) as [_ Hrun].
    destruct (Hrun 1%nat [] 12%float) as (h' & Hh' & Hout & _);
      [reflexivity | discriminate | reflexivity | |].
    + repeat constructor; by eexists.
    + exists h'. split; [exact Hh'|].
      rewrite !Hout; [split; reflexivity | |];
        unfold this; cbn [outputs Divider_base]; set_solver.
Defined.

(** ** Doubles: operations that are exact

    Multiplying or dividing a binary64 number by a power of two only moves
    its exponent, unless the result falls below the normal range. The
    facts below are derived from the specification of the primitive
    operations ([mul_spec], [div_spec], [add_spec]). *)

Ltac fexp_lia := unfold fexp, SpecFloat.emin, prec, emax in *; lia.

Lemma valid_finite s m e :
  valid_binary (S754_finite s m e) = true ->
  -1074 <= e <= 971 /\ 1 <= Z.pos (digits2_pos m) <= 53 /\
  (Z.pos (digits2_pos m) = 53 \/ e = -1074).
Proof.
  simpl. unfold bounded, canonical_mantissa, fexp, SpecFloat.emin, prec, emax.
  intros H. apply andb_prop in H as [H1 H2].
  apply Z.eqb_eq in H1. apply Z.leb_le in H2. lia.
Qed.

Lemma iter_pos_iter {A} (f : A -> A) p x :
  SpecFloat.iter_pos f p x = Pos.iter f x p.
Proof.
  revert x. induction p as [p IH|p IH|]; intros x; simpl; [|by rewrite !IH|done].
  by rewrite !IH, <- !Pos.iter_swap.
Qed.

Lemma digits2_iter_xO m k :
  Z.pos (digits2_pos (Pos.iter xO m k)) = Z.pos (digits2_pos m) + Z.pos k.
Proof.
  induction k as [|k IH] using Pos.peano_ind; [simpl; lia|].
  rewrite Pos.iter_succ. simpl. lia.
Qed.

Lemma iter_shr_1_iter_xO m k :
  SpecFloat.iter_pos shr_1 k
    (Build_shr_record (Z.pos (Pos.iter xO m k)) false false) =
  Build_shr_record (Z.pos m) false false.
Proof.
  rewrite iter_pos_iter.
  induction k as [|k IH] using Pos.peano_ind; [done|].
  rewrite Pos.iter_succ_r, Pos.iter_succ. simpl. apply IH.
Qed.

Lemma shr_iter_xO m k e :
  shr (Build_shr_record (Z.pos (Pos.iter xO m k)) false false) e (Z.pos k) =
  (Build_shr_record (Z.pos m) false false, e + Z.pos k).
Proof. unfold shr. by rewrite iter_shr_1_iter_xO. Qed.

(** Rounding a mantissa scaled by [2^k] back onto its canonical exponent. *)
Lemma binary_round_aux_iter_xO s m e k :
  valid_binary (S754_finite s m (e + Z.pos k)) = true ->
  binary_round_aux prec emax s (Z.pos (Pos.iter xO m k)) e loc_Exact =
  S754_finite s m (e + Z.pos k).
Proof.
  intros Hv. pose proof Hv as Hb. apply valid_finite in Hv as (He & Hd & Hc).
  unfold binary_round_aux, shr_fexp. cbn [Zdigits2 shr_record_of_loc].
  rewrite digits2_iter_xO.
  replace (fexp prec emax (Z.pos (digits2_pos m) + Z.pos k + e) - e)
    with (Z.pos k)
    by (unfold fexp, SpecFloat.emin, prec, emax; lia).
  rewrite shr_iter_xO. cbn [shr_m loc_of_shr_record round_nearest_even Zdigits2 shr_record_of_loc].
  replace (fexp prec emax (Z.pos (digits2_pos m) + (e + Z.pos k)) - (e + Z.pos k))
    with 0
    by (unfold fexp, SpecFloat.emin, prec, emax; lia).
  cbn [shr shr_m].
  replace (e + Z.pos k <=? emax - prec) with true; [done|].
  symmetry. apply Z.leb_le. unfold emax, prec. lia.
Qed.

Lemma mul_iter_xO m k : (m * Pos.iter xO 1%positive k)%positive = Pos.iter xO m k.
Proof.
  induction k as [|k IH] using Pos.peano_ind; [simpl; lia|].
  rewrite !Pos.iter_succ, Pos.mul_xO_r. by rewrite IH.
Qed.

Lemma mul_one (x : float) : (x * 1)%float = x.
Proof.
  apply Prim2SF_inj. rewrite mul_spec.
  change (Prim2SF 1) with (S754_finite false (Pos.iter xO 1%positive 52) (-52)).
  pose proof (Prim2SF_valid x) as Hv.
  destruct (Prim2SF x) as [s|s| |s m e]; [by destruct s|by destruct s|done|].
  unfold SF64mul, SFmul. rewrite mul_iter_xO, xorb_false_r.
  replace e with (e + -52 + 52) at 2 by lia.
  apply binary_round_aux_iter_xO. by replace (e + -52 + 52) with e by lia.
Qed.

Lemma div_eucl_exact a b : 0 < b -> Z.div_eucl (a * b) b = (a, 0).
Proof.
  intros Hb. pose proof (Z.div_eucl_eq (a * b) b) as Heq.
  pose proof (Z.mod_pos_bound (a * b) b Hb) as Hr.
  unfold Z.modulo in Hr. destruct (Z.div_eucl (a * b) b) as [q r].
  assert (b * (a - q) = r) by lia. 
  assert (a - q = 0) by nia. f_equal; lia.
Qed.

Lemma binary_round_aux_canonical s m e :
  valid_binary (S754_finite s m e) = true ->
  binary_round_aux prec emax s (Z.pos m) e loc_Exact = S754_finite s m e.
Proof.
  intros Hv. pose proof Hv as Hb. apply valid_finite in Hb as (He & Hd & Hc).
  unfold binary_round_aux, shr_fexp. cbn [Zdigits2 shr_record_of_loc].
  replace (fexp prec emax (Z.pos (digits2_pos m) + e) - e) with 0
    by (unfold fexp, SpecFloat.emin, prec, emax; lia).
  cbn [shr shr_m loc_of_shr_record round_nearest_even Zdigits2 shr_record_of_loc].
  replace (fexp prec emax (Z.pos (digits2_pos m) + e) - e) with 0
    by (unfold fexp, SpecFloat.emin, prec, emax; lia).
  cbn [shr shr_m].
  replace (e <=? emax - prec) with true; [done|].
  symmetry. apply Z.leb_le. unfold emax, prec. lia.
Qed.

(** Dividing by a power of two [2^(52 + ey)] when the quotient needs no
    rounding. *)
Lemma SFdiv_pow2 s m e ey :
  valid_binary (S754_finite s m (e - ey - 52)) = true ->
  SFdiv prec emax (S754_finite s m e)
        (S754_finite false (Pos.iter xO 1%positive 52) ey) =
  S754_finite s m (e - ey - 52).
Proof.
  intros Hv. pose proof Hv as Hb. apply valid_finite in Hb as (He & Hd & Hc).
  unfold SFdiv, SFdiv_core_binary. rewrite xorb_false_r.
  cbn [Zdigits2]. rewrite digits2_iter_xO.
  change (Z.pos (digits2_pos 1)) with 1.
  destruct (decide (e - ey - 52 = -1074)) as [Ht|Ht].
  - replace (fexp prec emax (Z.pos (digits2_pos m) + e - (1 + 52 + ey))
             `min` (e - ey)) with (-1074)
      by (unfold fexp, SpecFloat.emin, prec, emax; lia).
    replace (e - ey - -1074) with 52 by lia.
    rewrite Z.shiftl_mul_pow2 by lia.
    change (Z.pos (Pos.iter xO 1%positive 52)) with (2 ^ 52).
    rewrite div_eucl_exact by lia.
    change (new_location (2 ^ 52) 0) with loc_Exact.
    rewrite binary_round_aux_canonical; rewrite <- Ht; done.
  - replace (fexp prec emax (Z.pos (digits2_pos m) + e - (1 + 52 + ey))
             `min` (e - ey)) with (e - ey - 52 - 1)
      by (unfold fexp, SpecFloat.emin, prec, emax; lia).
    replace (e - ey - (e - ey - 52 - 1)) with 53 by lia.
    rewrite Z.shiftl_mul_pow2 by lia.
    change (Z.pos (Pos.iter xO 1%positive 52)) with (2 ^ 52).
    replace (Z.pos m * 2 ^ 53) with (Z.pos (Pos.iter xO m 1) * 2 ^ 52)
      by (simpl Pos.iter; lia).
    rewrite div_eucl_exact by lia.
    change (new_location (2 ^ 52) 0) with loc_Exact.
    rewrite binary_round_aux_iter_xO;
      replace (e - ey - 52 - 1 + 1) with (e - ey - 52) by lia; done.
Qed.

Lemma div_one (x : float) : (x / 1)%float = x.
Proof.
  apply Prim2SF_inj. rewrite div_spec.
  change (Prim2SF 1) with (S754_finite false (Pos.iter xO 1%positive 52) (-52)).
  pose proof (Prim2SF_valid x) as Hv.
  destruct (Prim2SF x) as [s|s| |s m e]; [by destruct s|by destruct s|done|].
  unfold SF64div. replace e with (e - -52 - 52) at 2 by lia.
  apply SFdiv_pow2. by replace (e - -52 - 52) with e by lia.
Qed.

Lemma div_eucl_unique a b q r :
  0 <= r < b -> a = b * q + r -> Z.div_eucl a b = (q, r).
Proof.
  intros Hr Ha. pose proof (Z.div_eucl_eq a b) as Heq.
  pose proof (Z.mod_pos_bound a b ltac:(lia)) as Hm.
  unfold Z.modulo in Hm. destruct (Z.div_eucl a b) as [q' r'].
  assert (b * (q - q') = r' - r) by lia.
  assert (q - q' = 0) by nia. f_equal; lia.
Qed.

Lemma mul_half_div_two (x : float) : (x * 0.5)%float = (x / 2)%float.
Proof.
  apply Prim2SF_inj. rewrite mul_spec, div_spec.
  change (Prim2SF 0.5) with (S754_finite false (Pos.iter xO 1%positive 52) (-53)).
  change (Prim2SF 2) with (S754_finite false (Pos.iter xO 1%positive 52) (-51)).
  pose proof (Prim2SF_valid x) as Hv.
  destruct (Prim2SF x) as [s|s| |s m e]; [by destruct s|by destruct s|done|].
  pose proof Hv as Hb. apply valid_finite in Hb as (He & Hd & Hc).
  destruct (decide (e = -1074)) as [->|Hne].
  - unfold SF64mul, SFmul, SF64div, SFdiv, SFdiv_core_binary.
    rewrite mul_iter_xO, xorb_false_r.
    cbn [Zdigits2]. rewrite digits2_iter_xO.
    change (Z.pos (digits2_pos 1)) with 1.
    replace (fexp prec emax (Z.pos (digits2_pos m) + -1074 - (1 + 52 + -51))
             `min` (-1074 - -51)) with (-1074)
      by (unfold fexp, SpecFloat.emin, prec, emax; lia).
    change (-1074 - -51 - -1074) with 51.
    rewrite Z.shiftl_mul_pow2 by lia.
    change (Z.pos (Pos.iter xO 1%positive 52)) with (2 ^ 52).
    unfold binary_round_aux at 1. unfold shr_fexp at 1.
    cbn [Zdigits2 shr_record_of_loc]. rewrite digits2_iter_xO.
    replace (fexp prec emax (Z.pos (digits2_pos m) + 52 + (-1074 + -53)) -
             (-1074 + -53)) with (Z.pos (Pos.succ 52))
      by (unfold fexp, SpecFloat.emin, prec, emax; lia).
    unfold shr at 1. rewrite iter_pos_iter, Pos.iter_succ, <- iter_pos_iter.
    rewrite iter_shr_1_iter_xO.
    change (-1074 + -53 + Z.pos (Pos.succ 52)) with (-1074).
    assert (Hq : exists q l,
      Z.div_eucl (Z.pos m * 2 ^ 51) (2 ^ 52) = (q, l) /\
      shr_record_of_loc q (new_location (2 ^ 52) l) =
        shr_1 (Build_shr_record (Z.pos m) false false) /\
      0 <= q /\ Zdigits2 q <= 53).
    { destruct m as [p|p|].
      - exists (Z.pos p), (2 ^ 51). split; [apply div_eucl_unique; lia|].
        split; [done|]. simpl in Hd. simpl. lia.
      - exists (Z.pos p), 0. split; [apply div_eucl_unique; lia|].
        split; [done|]. simpl in Hd. simpl. lia.
      - exists 0, (2 ^ 51). split; [apply div_eucl_unique; lia|].
        split; [done|]. simpl. lia. }
    destruct Hq as (q & l & -> & Hrec & Hq0 & Hqd).
    unfold binary_round_aux. unfold shr_fexp at 2.
    replace (fexp prec emax (Zdigits2 q + -1074) - -1074) with 0
      by (unfold fexp, SpecFloat.emin, prec, emax; lia).
    cbn [shr]. by rewrite Hrec.
  - assert (Hv' : valid_binary (S754_finite s m (e - 1)) = true).
    { simpl in *. unfold bounded, canonical_mantissa, fexp, SpecFloat.emin, prec, emax in *.
      apply andb_true_intro. split; [apply Z.eqb_eq | apply Z.leb_le]; lia. }
    unfold SF64mul, SFmul. rewrite mul_iter_xO, xorb_false_r.
    unfold SF64div. replace (e - 1) with (e - -51 - 52) in Hv' by lia.
    rewrite (SFdiv_pow2 _ _ _ _ Hv').
    replace (e - -51 - 52) with (e + -53 + 52) in * by lia.
    by apply binary_round_aux_iter_xO.
Qed.

(** What the reactor computes for each output is the quotient by its
    capacity: [x * (1.0 / n)] and [x / n] agree for [n] = 1 and 2. *)
Lemma mul_inv_capacity (x : double) (n : Z) :
  n = 1 \/ n = 2 ->
  (x * (1 / double_of_Z n))%float = (x / double_of_Z n)%float.
Proof.
  intros [-> | ->].
  - change (double_of_Z 1) with 1%float. change (1 / 1)%float with 1%float.
    by rewrite mul_one, div_one.
  - change (double_of_Z 2) with 2%float. change (1 / 2)%float with 0.5%float.
    apply mul_half_div_two.
Qed.

(** ** Loops over the output ports *)

Section Computations_laws.
Context {S : Type}.

Lemma bind_assoc {A B C} (c : M S A) (k : A -> M S B) (k' : B -> M S C) s :
  bind (bind c k) k' s = bind c (fun a => bind (k a) k') s.
Proof. unfold bind. by destruct (c s) as [[a| |] s0]. Qed.

Lemma bind_ret_l {A B} (a : A) (k : A -> M S B) s : bind (ret a) k s = k a s.
Proof. done. Qed.

Lemma bind_ext {A B} (c : M S A) (k k' : A -> M S B) s :
  (forall a s', k a s' = k' a s') -> bind c k s = bind c k' s.
Proof. intros Hk. unfold bind. by destruct (c s) as [[a| |] s0]. Qed.
End Computations_laws.

Lemma to_size_t_small z : 0 <= z < 2 ^ 64 -> to_size_t z = z.
Proof. intros. unfold to_size_t. by apply Z.mod_small. Qed.

Lemma at_lookup v i p :
  0 <= i -> v !! Z.to_nat i = Some p -> at_ v i = Ok p.
Proof.
  intros Hi Hp. unfold at_, index, size. rewrite Hp.
  apply lookup_lt_Some in Hp.
  by Z_test.
Qed.

Lemma at_past_end v i : size v <= i -> at_ v i = Throw ExnOutOfRange.
Proof.
  intros Hi. unfold at_.
  by Z_test.
Qed.

(** The counting loop of the reactor writes through the first [n] ports
    from [i] on, in order, and throws at the first index past the end. *)
Lemma for_upto_at (m : double) (v : list ptr) n : forall i h,
  0 <= i <= size v -> i + Z.of_nat n <= 2 ^ 64 ->
  for_upto (fun j => do q <- lift (at_ v (to_size_t j)); setMassFlow q m) i n h =
  bind (for_each (fun q => setMassFlow q m) (take n (drop (Z.to_nat i) v)))
       (fun _ => if Z.of_nat n <=? size v - i then ret tt
                 else throw ExnOutOfRange) h.
Proof.
  induction n as [|n IH]; intros i h Hi Hn.
  - rewrite take_0. cbn [for_upto for_each]. rewrite bind_ret_l.
    by replace (Z.of_nat 0 <=? size v - i) with true
      by (symmetry; apply Z.leb_le; lia).
  - cbn [for_upto].
    destruct (decide (i = size v)) as [Heq|Hlt].
    + rewrite drop_ge by (unfold size in *; lia).
      rewrite take_nil. cbn [for_each]. rewrite bind_ret_l.
      replace (Z.of_nat (Datatypes.S n) <=? size v - i) with false
        by (symmetry; apply Z.leb_gt; lia).
      rewrite to_size_t_small by lia.
      unfold bind at 1. unfold bind at 1. unfold lift.
      by rewrite at_past_end by lia.
    + destruct (lookup_lt_is_Some_2 v (Z.to_nat i)) as [q Hq];
        [unfold size in *; lia|].
      rewrite (drop_S _ _ _ Hq), firstn_cons. cbn beta iota delta [for_each].
      rewrite to_size_t_small by lia.
      rewrite (at_lookup v i q) by (lia || done). rewrite bind_assoc.
      rewrite (bind_ok (lift _) _ h q h) by done.
      rewrite bind_assoc. apply bind_ext. intros [] h1.
      rewrite IH by lia.
      replace (Z.to_nat (i + 1)) with (Datatypes.S (Z.to_nat i)) by lia.
      replace (Z.of_nat n <=? size v - (i + 1))
        with (Z.of_nat (Datatypes.S n) <=? size v - i); [done|].
      destruct (Z.leb_spec (Z.of_nat (Datatypes.S n)) (size v - i));
        symmetry; [apply Z.leb_le | apply Z.leb_gt]; lia.
Qed.

(** ** Reactor *)

Lemma Reactor_new_inv b : Reactor_inv (Reactor_new b).
Proof. split; [done|]. destruct b; [by right | by left]. Qed.

Lemma Reactor_updateOutputs_run (this : Reactor) h p v m :
  Reactor_inv this ->
  inputs (Reactor_base this) = p :: v ->
  flow h p = Some m ->
  Reactor_updateOutputs this h =
  bind (for_each
          (fun q => setMassFlow q
             (m / double_of_Z (outputAmount (Reactor_base this)))%float)
          (take (Z.to_nat (outputAmount (Reactor_base this)))
                (outputs (Reactor_base this))))
       (fun _ => if outputAmount (Reactor_base this)
                      <=? size (outputs (Reactor_base this))
                 then ret tt else throw ExnOutOfRange) h.
Proof.
  intros [_ Hcap] Hin Hm. unfold Reactor_updateOutputs, for_range.
  rewrite Hin. rewrite (bind_ok (lift _) _ h p h) by done.
  unfold flow in Hm. destruct (h !! p) as [s|] eqn:Hp; [|done].
  injection Hm as <-.
  erewrite bind_ok by (by apply getMassFlow_live).
  rewrite mul_inv_capacity by done.
  rewrite for_upto_at.
  - rewrite !Z.sub_0_r. change (Z.to_nat 0) with 0%nat. rewrite drop_0.
    by rewrite Z2Nat.id by lia.
  - pose proof (size_nonneg (outputs (Reactor_base this))). lia.
  - lia.
Qed.

(** A reactor with its input and all its declared outputs attached. *)
Lemma Reactor_updateOutputs_wired (this : Reactor) h p v m :
  Reactor_inv this ->
  inputs (Reactor_base this) = p :: v ->
  flow h p = Some m ->
  size (outputs (Reactor_base this)) = outputAmount (Reactor_base this) ->
  all_live h (outputs (Reactor_base this)) ->
  Reactor_updateOutputs this h =
  (Ok tt, store_all (m / double_of_Z (outputAmount (Reactor_base this)))
                    (outputs (Reactor_base this)) h).
Proof.
  intros Hinv Hin Hm Hsize Hlive.
  rewrite (Reactor_updateOutputs_run _ _ _ _ _ Hinv Hin Hm).
  rewrite take_ge by (unfold size in Hsize; lia).
  erewrite bind_ok by (by apply for_each_setMassFlow).
  by Z_test.
Qed.

(** A reactor with fewer outputs attached than it declares: the attached
    ones are written, then [at] throws. *)
Lemma Reactor_updateOutputs_short (this : Reactor) h p v m :
  Reactor_inv this ->
  inputs (Reactor_base this) = p :: v ->
  flow h p = Some m ->
  size (outputs (Reactor_base this)) < outputAmount (Reactor_base this) ->
  all_live h (outputs (Reactor_base this)) ->
  Reactor_updateOutputs this h =
  (Throw ExnOutOfRange,
   store_all (m / double_of_Z (outputAmount (Reactor_base this)))
             (outputs (Reactor_base this)) h).
Proof.
  intros Hinv Hin Hm Hsize Hlive.
  rewrite (Reactor_updateOutputs_run _ _ _ _ _ Hinv Hin Hm).
  rewrite take_ge by (unfold size in Hsize; lia).
  erewrite bind_ok by (by apply for_each_setMassFlow).
  by Z_test.
Qed.

(** C3. A reactor with one input of flow [m] and all its declared output
    ports attached: [updateOutputs] succeeds and every port
    [i] in [0 .. outputAmount) carries [m / outputAmount], the split being
    over the declared capacity; with capacity 2 and [m] = 10.0 each
    output carries 5.0. *)
Theorem Reactor_updateOutputs_split (this : Reactor) (h : heap) (p : ptr) (m : double) :
  Reactor_inv this ->
  inputs (Reactor_base this) = [p] ->
  flow h p = Some m ->
  size (outputs (Reactor_base this)) = outputAmount (Reactor_base this) ->
  all_live h (outputs (Reactor_base this)) ->
  exists h', Reactor_updateOutputs this h = (Ok tt, h') /\
    (forall i q, 0 <= i < outputAmount (Reactor_base this) ->
       outputs (Reactor_base this) !! Z.to_nat i = Some q ->
       flow h' q = Some (m / double_of_Z (outputAmount (Reactor_base this)))%float) /\
    (outputAmount (Reactor_base this) = 2 -> m = 10%float ->
       forall q, q ∈ outputs (Reactor_base this) -> flow h' q = Some 5%float).
Proof.
  intros Hinv Hin Hm Hsize Hlive.
  rewrite (Reactor_updateOutputs_wired _ _ _ _ _ Hinv Hin Hm Hsize Hlive).
  eexists. split; [done|].
  assert (Hall : forall q, q ∈ outputs (Reactor_base this) ->
    flow (store_all (m / double_of_Z (outputAmount (Reactor_base this)))
            (outputs (Reactor_base this)) h) q =
    Some (m / double_of_Z (outputAmount (Reactor_base this)))%float).
  { intros q Hq. apply store_all_flow; [done|]. by eapply Forall_forall in Hlive. }
  split.
  - intros i q _ Hq. apply Hall. by eapply list_elem_of_lookup_2.
  - intros Hcap -> q Hq. rewrite (Hall q Hq), Hcap. reflexivity.
Qed.

(** Scenario 6 of the specification: Reactor(true), input 10.0, two
    outputs attached. *)
Lemma Reactor_updateOutputs_split_witness :
  let this := mkReactor (mkDevice [1%nat] [2%nat; 3%nat] 1 2) in
  let h : heap := <[1%nat := mkStream 10 "s1"]>
                  (<[2%nat := mkStream 0 "s2"]>
                  (<[3%nat := mkStream 0 "s3"]> ∅)) in
  (run Reactor_addInput 1%nat; run Reactor_addOutput 2%nat;
   Reactor_addOutput 3%nat) (Reactor_new true) = (Ok tt, this) /\
  exists h', Reactor_updateOutputs this h = (Ok tt, h') /\
             flow h' 2%nat = Some 5%float /\ flow h' 3%nat = Some 5%float.
Proof.
  intros this h. split; [reflexivity|].
  destruct (Reactor_updateOutputs_split this h 1%nat 10%float)
    as (h' & Hh' & _ & Hout).
  - apply (Reactor_new_inv true).
  - reflexivity.
  - reflexivity.
  - reflexivity.
  - repeat constructor; by eexists.
  - exists h'. split; [exact Hh'|].
    split; apply Hout; try reflexivity; unfold this; cbn [outputs Reactor_base];
      set_solver.
Defined.

(** C8. [Reactor::updateOutputs] relies on its ports being attached: with
    no input, or with fewer outputs attached than [outputAmount], the
    checked access [at] throws [std::out_of_range], which is not the
    precursor-missing error; with one input and all [outputAmount] outputs
    attached no access is out of range and the call succeeds. *)
Theorem Reactor_updateOutputs_range (this : Reactor) (h : heap) :
  Reactor_inv this ->
  (inputs (Reactor_base this) = [] ->
     Reactor_updateOutputs this h = (Throw ExnOutOfRange, h))
  /\ (forall p v m,
        inputs (Reactor_base this) = p :: v -> flow h p = Some m ->
        all_live h (outputs (Reactor_base this)) ->
        size (outputs (Reactor_base this)) < outputAmount (Reactor_base this) ->
        exists h', Reactor_updateOutputs this h = (Throw ExnOutOfRange, h'))
  /\ (classify ExnOutOfRange = Some OutOfRange /\
      classify ExnOutOfRange <> Some PrecursorMissing)
  /\ (forall p m,
        inputs (Reactor_base this) = [p] -> flow h p = Some m ->
        all_live h (outputs (Reactor_base this)) ->
        size (outputs (Reactor_base this)) = outputAmount (Reactor_base this) ->
        exists h', Reactor_updateOutputs this h = (Ok tt, h')).
Proof.
  intros Hinv. repeat split.
  - intros Hin. unfold Reactor_updateOutputs. by rewrite Hin.
  - intros p v m Hin Hm Hlive Hsize.
    rewrite (Reactor_updateOutputs_short _ _ _ _ _ Hinv Hin Hm Hsize Hlive).
    by eexists.
  - discriminate.
  - intros p m Hin Hm Hlive Hsize.
    rewrite (Reactor_updateOutputs_wired _ _ _ _ _ Hinv Hin Hm Hsize Hlive).
    by eexists.
Qed.

(** A Reactor(true) with nothing attached, with only one of its two
    outputs attached, and fully wired. *)
Lemma Reactor_updateOutputs_range_witness :
  let h : heap := <[1%nat := mkStream 10 "s1"]>
                  (<[2%nat := mkStream 0 "s2"]>
                  (<[3%nat := mkStream 0 "s3"]> ∅)) in
  Reactor_updateOutputs (Reactor_new true) h = (Throw ExnOutOfRange, h) /\
  (exists h', Reactor_updateOutputs
                (mkReactor (mkDevice [1%nat] [2%nat] 1 2)) h =
              (Throw ExnOutOfRange, h')) /\
  (exists h', Reactor_updateOutputs
                (mkReactor (mkDevice [1%nat] [2%nat; 3%nat] 1 2)) h =
              (Ok tt, h')).
Proof.
  intros h. split; [|split].
  - by apply (Reactor_updateOutputs_range (Reactor_new true) h (Reactor_new_inv true)).
  - destruct (Reactor_updateOutputs_range
                (mkReactor (mkDevice [1%nat] [2%nat] 1 2)) h
                (Reactor_new_inv true)) as (_ & Hfew & _).
    apply (Hfew 1%nat [] 10%float); try reflexivity.
    repeat constructor; by eexists.
  - destruct (Reactor_updateOutputs_range
                (mkReactor (mkDevice [1%nat] [2%nat; 3%nat] 1 2)) h
                (Reactor_new_inv true)) as (_ & _ & _ & Hfull).
    apply (Hfull 1%nat 10%float); try reflexivity.
    repeat constructor; by eexists.
Defined.

(** ** The capacities are fixed at construction *)

Lemma Mixer_new_inv n : is_int n -> Mixer_inv (Mixer_new n).
Proof. by intros Hn. Qed.

Lemma Divider_new_inv n : is_int n -> Divider_inv (Divider_new n).
Proof. by intros Hn. Qed.

Lemma Device_addInput_capacity s d r d' :
  Device_addInput s d = (r, d') ->
  inputAmount d' = inputAmount d /\ outputAmount d' = outputAmount d.
Proof. unfold Device_addInput. destruct (_ <? _); by intros [= _ <-]. Qed.

Lemma Device_addOutput_capacity s d r d' :
  Device_addOutput s d = (r, d') ->
  inputAmount d' = inputAmount d /\ outputAmount d' = outputAmount d.
Proof. unfold Device_addOutput. destruct (_ <? _); by intros [= _ <-]. Qed.

Lemma Reactor_addInput_inv s this r this' :
  Reactor_inv this -> Reactor_addInput s this = (r, this') -> Reactor_inv this'.
Proof.
  unfold Reactor_inv, Reactor_addInput, on_base. intros Hinv.
  destruct (Device_addInput s (Reactor_base this)) as [r0 d] eqn:Hadd.
  apply Device_addInput_capacity in Hadd as [Hi Ho].
  intros [= _ <-]. cbn [Reactor_base]. by rewrite Hi, Ho.
Qed.

Lemma Reactor_addOutput_inv s this r this' :
  Reactor_inv this -> Reactor_addOutput s this = (r, this') -> Reactor_inv this'.
Proof.
  unfold Reactor_inv, Reactor_addOutput, on_base. intros Hinv.
  destruct (Device_addOutput s (Reactor_base this)) as [r0 d] eqn:Hadd.
  apply Device_addOutput_capacity in Hadd as [Hi Ho].
  intros [= _ <-]. cbn [Reactor_base]. by rewrite Hi, Ho.
Qed.

Lemma Mixer_addInput_inv s this r this' :
  Mixer_inv this -> Mixer_addInput s this = (r, this') -> Mixer_inv this'.
Proof.
  unfold Mixer_addInput. intros Hinv. destruct (_ =? _); by intros [= _ <-].
Qed.

Lemma Mixer_addOutput_inv s this r this' :
  Mixer_inv this -> Mixer_addOutput s this = (r, this') -> Mixer_inv this'.
Proof.
  unfold Mixer_addOutput. intros Hinv. destruct (_ =? _); by intros [= _ <-].
Qed.

(** ** Attaching streams *)

Lemma to_size_t_negative z : - 2 ^ 64 <= z < 0 -> to_size_t z = 2 ^ 64 + z.
Proof.
  intros. unfold to_size_t. symmetry.
  apply (Z.mod_unique z (2 ^ 64) (-1)); lia.
Qed.

Lemma is_int_bounds z : is_int z -> - 2 ^ 31 <= z < 2 ^ 31.
Proof. unfold is_int, INT_MIN, INT_MAX. lia. Qed.

Lemma vector_ok_bound v : vector_ok v -> 0 <= size v < 2 ^ 63.
Proof. unfold vector_ok, PTRDIFF_MAX, size. lia. Qed.

Lemma Device_addInput_full s d :
  is_int (inputAmount d) -> size (inputs d) = inputAmount d ->
  Device_addInput s d = (Throw (ExnCStr "INPUT STREAM LIMIT!"), d).
Proof.
  intros Hint%is_int_bounds Hfull. unfold Device_addInput.
  pose proof (size_nonneg (inputs d)).
  rewrite to_size_t_small by lia.
  by Z_test.
Qed.

Lemma Device_addInput_room s d :
  is_int (inputAmount d) -> size (inputs d) < inputAmount d ->
  Device_addInput s d = (Ok tt, push_input s d).
Proof.
  intros Hint%is_int_bounds Hroom. unfold Device_addInput.
  pose proof (size_nonneg (inputs d)).
  rewrite to_size_t_small by lia.
  by Z_test.
Qed.

Lemma Device_addOutput_full s d :
  is_int (outputAmount d) -> size (outputs d) = outputAmount d ->
  Device_addOutput s d = (Throw (ExnCStr "OUTPUT STREAM LIMIT!"), d).
Proof.
  intros Hint%is_int_bounds Hfull. unfold Device_addOutput.
  pose proof (size_nonneg (outputs d)).
  rewrite to_size_t_small by lia.
  by Z_test.
Qed.

Lemma Device_addOutput_room s d :
  is_int (outputAmount d) -> size (outputs d) < outputAmount d ->
  Device_addOutput s d = (Ok tt, push_output s d).
Proof.
  intros Hint%is_int_bounds Hroom. unfold Device_addOutput.
  pose proof (size_nonneg (outputs d)).
  rewrite to_size_t_small by lia.
  by Z_test.
Qed.

(** A capacity of zero admits nothing. *)
Lemma Device_addOutput_zero s d :
  outputAmount d = 0 ->
  Device_addOutput s d = (Throw (ExnCStr "OUTPUT STREAM LIMIT!"), d).
Proof.
  intros H0. unfold Device_addOutput. rewrite H0.
  pose proof (size_nonneg (outputs d)).
  change (to_size_t 0) with 0.
  by Z_test.
Qed.

(** A negative capacity becomes a huge [size_t], which no vector reaches. *)
Lemma Device_addOutput_negative s d :
  is_int (outputAmount d) -> outputAmount d < 0 -> vector_ok (outputs d) ->
  Device_addOutput s d = (Ok tt, push_output s d).
Proof.
  intros Hint%is_int_bounds Hneg Hv%vector_ok_bound. unfold Device_addOutput.
  rewrite to_size_t_negative by lia.
  by Z_test.
Qed.

Lemma size_app v w : size (v ++ w) = size v + size w.
Proof. unfold size. rewrite length_app. lia. Qed.

Lemma for_each_addOutput_negative ss : forall d,
  is_int (outputAmount d) -> outputAmount d < 0 -> vector_ok (outputs d ++ ss) ->
  for_each Device_addOutput ss d =
  (Ok tt, mkDevice (inputs d) (outputs d ++ ss) (inputAmount d) (outputAmount d)).
Proof.
  induction ss as [|s ss IH]; intros d Hint Hneg Hv.
  - rewrite app_nil_r. by destruct d.
  - cbn [for_each].
    erewrite bind_ok; cycle 1.
    { apply Device_addOutput_negative; [done..|].
      unfold vector_ok in *. rewrite size_app in Hv.
      pose proof (size_nonneg (s :: ss)). lia. }
    rewrite IH; cbn [push_output inputs outputs inputAmount outputAmount];
      [|done..|by rewrite <- app_assoc].
    by rewrite <- app_assoc.
Qed.

Lemma Mixer_addInput_full s this :
  Mixer_inv this ->
  size (inputs (Mixer_base this)) = inputAmount (Mixer_base this) ->
  Mixer_addInput s this = (Throw (ExnString "Too much inputs"), this).
Proof.
  intros (Hint%is_int_bounds & Hcnt & _) Hfull. unfold Mixer_addInput.
  pose proof (size_nonneg (inputs (Mixer_base this))).
  rewrite to_size_t_small by lia.
  by Z_test.
Qed.

Lemma Mixer_addInput_room s this :
  Mixer_inv this ->
  size (inputs (Mixer_base this)) < inputAmount (Mixer_base this) ->
  Mixer_addInput s this =
  (Ok tt, mkMixer (push_input s (Mixer_base this)) (_inputs_count this)).
Proof.
  intros (Hint%is_int_bounds & Hcnt & _) Hroom. unfold Mixer_addInput.
  pose proof (size_nonneg (inputs (Mixer_base this))).
  rewrite to_size_t_small by lia.
  by Z_test.
Qed.

Lemma Mixer_addOutput_full s this :
  Mixer_inv this ->
  size (outputs (Mixer_base this)) = outputAmount (Mixer_base this) ->
  Mixer_addOutput s this = (Throw (ExnString "Too much outputs"), this).
Proof.
  intros (_ & _ & Hout) Hfull. unfold Mixer_addOutput.
  by replace (_ =? _) with true by (symmetry; apply Z.eqb_eq; by rewrite Hfull, Hout).
Qed.

Lemma Mixer_addOutput_room s this :
  Mixer_inv this ->
  size (outputs (Mixer_base this)) < outputAmount (Mixer_base this) ->
  Mixer_addOutput s this =
  (Ok tt, mkMixer (push_output s (Mixer_base this)) (_inputs_count this)).
Proof.
  intros (_ & _ & Hout) Hroom. unfold Mixer_addOutput.
  replace (_ =? _) with false; [done|].
  symmetry. apply Z.eqb_neq. rewrite Hout in Hroom.
  change (to_size_t MIXER_OUTPUTS) with MIXER_OUTPUTS. lia.
Qed.

(** C5. Attaching to a port list that already holds as many streams as the
    capacity throws the port-limit exception of that kind and leaves the
    device as it was; below the capacity the stream is appended after
    those already attached. This holds for [Device::addInput] and
    [Device::addOutput], which [Reactor] and [Divider] use, and for the
    two that [Mixer] defines for itself. *)
Theorem capacity_enforcement (d : Device) (s : ptr) :
  is_int (inputAmount d) -> is_int (outputAmount d) ->
  (size (inputs d) = inputAmount d ->
     exists e, Device_addInput s d = (Throw e, d) /\
               classify e = Some (PortLimitExceeded Input))
  /\ (size (outputs d) = outputAmount d ->
     exists e, Device_addOutput s d = (Throw e, d) /\
               classify e = Some (PortLimitExceeded Output))
  /\ (size (inputs d) < inputAmount d ->
     exists d', Device_addInput s d = (Ok tt, d') /\
                inputs d' = inputs d ++ [s] /\ outputs d' = outputs d)
  /\ (size (outputs d) < outputAmount d ->
     exists d', Device_addOutput s d = (Ok tt, d') /\
                outputs d' = outputs d ++ [s] /\ inputs d' = inputs d)
  /\ (forall this : Mixer, Mixer_base this = d -> Mixer_inv this ->
       (size (inputs d) = inputAmount d ->
          exists e, Mixer_addInput s this = (Throw e, this) /\
                    classify e = Some (PortLimitExceeded Input))
       /\ (size (outputs d) = outputAmount d ->
          exists e, Mixer_addOutput s this = (Throw e, this) /\
                    classify e = Some (PortLimitExceeded Output))
       /\ (size (inputs d) < inputAmount d ->
          exists this', Mixer_addInput s this = (Ok tt, this') /\
            inputs (Mixer_base this') = inputs d ++ [s] /\
            outputs (Mixer_base this') = outputs d)
       /\ (size (outputs d) < outputAmount d ->
          exists this', Mixer_addOutput s this = (Ok tt, this') /\
            outputs (Mixer_base this') = outputs d ++ [s] /\
            inputs (Mixer_base this') = inputs d)).
Proof.
  intros Hin Hout. repeat split.
  - intros H. eexists. by rewrite Device_addInput_full.
  - intros H. eexists. by rewrite Device_addOutput_full.
  - intros H. eexists. by rewrite Device_addInput_room.
  - intros H. eexists. by rewrite Device_addOutput_room.
  - subst d. intros H. eexists. by rewrite Mixer_addInput_full.
  - subst d. intros H. eexists. by rewrite Mixer_addOutput_full.
  - subst d. intros H. eexists. by rewrite Mixer_addInput_room.
  - subst d. intros H. eexists. by rewrite Mixer_addOutput_room.
Qed.

(** Scenario 2 of the specification, and the reactor's limit test: the
    second output of a Mixer(2) and of a Reactor(false) is refused. *)
Lemma capacity_enforcement_witness :
  let mx := mkMixer (mkDevice [1%nat; 2%nat] [3%nat] 2 1) 2 in
  let rc := mkReactor (mkDevice [1%nat] [2%nat] 1 1) in
  Mixer_addOutput 4%nat mx = (Throw (ExnString "Too much outputs"), mx) /\
  (exists e, Reactor_addOutput 3%nat rc = (Throw e, rc) /\
             classify e = Some (PortLimitExceeded Output)) /\
  (exists d', Device_addInput 1%nat (Reactor_base (Reactor_new false)) = (Ok tt, d') /\
              inputs d' = [1%nat]).
Proof.
  intros mx rc.
  split; [|split].
  - destruct (capacity_enforcement (Mixer_base mx) 4%nat) as (_ & _ & _ & _ & Hmx);
      [cbv; split; discriminate .. |].
    destruct (Hmx mx eq_refl) as (_ & Hfull & _).
    { split; [cbv; split; discriminate | done]. }
    destruct (Hfull eq_refl) as (e & He & Hc).
    rewrite He. by injection He as <-.
  - destruct (capacity_enforcement (Reactor_base rc) 3%nat) as (_ & Hfull & _);
      [cbv; split; discriminate .. |].
    destruct (Hfull eq_refl) as (e & He & Hc).
    exists e. split; [|done]. unfold Reactor_addOutput, on_base. by rewrite He.
  - destruct (capacity_enforcement (Reactor_base (Reactor_new false)) 1%nat)
      as (_ & _ & Hroom & _); [cbv; split; discriminate .. |].
    destruct Hroom as (d' & Hd' & Hi & _); [reflexivity|]. by exists d'.
Defined.

(** ** Accessors *)

Lemma at_inside v i :
  0 <= i < size v -> exists p, v !! Z.to_nat i = Some p /\ at_ v i = Ok p.
Proof.
  intros Hi. destruct (lookup_lt_is_Some_2 v (Z.to_nat i)) as [p Hp];
    [unfold size in Hi; lia|].
  exists p. split; [done|]. apply at_lookup; [lia|done].
Qed.

Lemma at_int_index v i :
  is_int i -> vector_ok v ->
  (~ 0 <= i < size v -> at_ v (to_size_t i) = Throw ExnOutOfRange) /\
  (0 <= i < size v ->
     exists p, v !! Z.to_nat i = Some p /\ at_ v (to_size_t i) = Ok p).
Proof.
  intros Hint%is_int_bounds Hv%vector_ok_bound. split.
  - intros Hout. apply at_past_end.
    destruct (Z.neg_nonneg_cases i).
    + rewrite to_size_t_negative by lia. lia.
    + rewrite to_size_t_small by lia. lia.
  - intros Hi. rewrite to_size_t_small by lia. by apply at_inside.
Qed.

Lemma to_int_small z : 0 <= z <= INT_MAX -> to_int z = z.
Proof.
  unfold INT_MAX, to_int. intros.
  rewrite Z.mod_small by lia. lia.
Qed.

(** C9, amended. [getInput(i)] and [getOutput(i)] throw
    [std::out_of_range] when [i] lies outside [0, count) and otherwise
    return the [i]-th attached stream; [getInputCount] and
    [getOutputCount] cannot fail, and return the attached count as long as
    it fits an [int]. *)
Theorem accessors_spec (d : Device) (i : Z) :
  is_int i -> vector_ok (inputs d) -> vector_ok (outputs d) ->
  (~ 0 <= i < size (inputs d) -> getInput d i = Throw ExnOutOfRange)
  /\ (0 <= i < size (inputs d) ->
      exists p, inputs d !! Z.to_nat i = Some p /\ getInput d i = Ok p)
  /\ (~ 0 <= i < size (outputs d) -> getOutput d i = Throw ExnOutOfRange)
  /\ (0 <= i < size (outputs d) ->
      exists p, outputs d !! Z.to_nat i = Some p /\ getOutput d i = Ok p)
  /\ (size (inputs d) <= INT_MAX -> getInputCount d = size (inputs d))
  /\ (size (outputs d) <= INT_MAX -> getOutputCount d = size (outputs d)).
Proof.
  intros Hi Hvi Hvo.
  destruct (at_int_index (inputs d) i Hi Hvi) as [Hi1 Hi2].
  destruct (at_int_index (outputs d) i Hi Hvo) as [Ho1 Ho2].
  repeat split; try done.
  - intros H. apply to_int_small. pose proof (size_nonneg (inputs d)). lia.
  - intros H. apply to_int_small. pose proof (size_nonneg (outputs d)). lia.
Qed.

Lemma accessors_spec_witness :
  let d := mkDevice [1%nat] [2%nat; 3%nat] 1 2 in
  getOutput d 1 = Ok 3%nat /\ getOutput d 2 = Throw ExnOutOfRange /\
  getInput d (-1) = Throw ExnOutOfRange /\ getOutputCount d = 2.
Proof.
  intros d.
  assert (Hv : forall v, (length v <= 5)%nat -> vector_ok v).
  { unfold vector_ok, PTRDIFF_MAX, size. lia. }
  split; [|split; [|split]].
  - destruct (accessors_spec d 1) as (_ & _ & _ & Hin & _);
      [cbv; split; discriminate | apply Hv; cbn; lia .. |].
    destruct Hin as (p & Hp & Hget); [cbv; split; [discriminate|reflexivity]|].
    rewrite Hget. f_equal. by injection Hp as <-.
  - destruct (accessors_spec d 2) as (_ & _ & Hout & _);
      [cbv; split; discriminate | apply Hv; cbn; lia .. |].
    apply Hout. cbv. intros [_ H]. discriminate.
  - destruct (accessors_spec d (-1)) as (Hout & _);
      [cbv; split; discriminate | apply Hv; cbn; lia .. |].
    apply Hout. cbv. intros [H _]. by apply H.
  - destruct (accessors_spec d 0) as (_ & _ & _ & _ & _ & Hcnt);
      [cbv; split; discriminate | apply Hv; cbn; lia .. |].
    rewrite Hcnt; [reflexivity | cbv; discriminate].
Defined.

Lemma size_many_streams : size many_streams = 2 ^ 31.
Proof.
  unfold size, many_streams. rewrite length_replicate. apply Z2Nat.id.
  by apply Z.pow_nonneg.
Qed.

(** C9, as stated, fails for the counts: a divider built with a negative
    capacity accepts 2^31 outputs, and [getOutputCount] then returns
    [INT_MIN]. *)
Lemma getOutputCount_wraps :
  exists d,
    for_each Device_addOutput many_streams (Divider_base (Divider_new (-1))) =
      (Ok tt, d) /\
    size (outputs d) = 2 ^ 31 /\
    getOutputCount d = - 2 ^ 31 /\
    getOutputCount d <> size (outputs d).
Proof.
  pose proof size_many_streams as Hsize.
  eexists. split.
  - apply for_each_addOutput_negative.
    + cbv. split; discriminate.
    + reflexivity.
    + unfold vector_ok. cbn [Divider_new Divider_base outputs app].
      rewrite Hsize. cbv. discriminate.
  - unfold getOutputCount.
    cbn [Divider_new Divider_base outputs inputs inputAmount outputAmount app].
    rewrite Hsize. split; [reflexivity|]. split; [reflexivity|]. discriminate.
Qed.

(** C10. With a negative [outputAmount] the comparison
    [outputs.size() < outputAmount] is made in [size_t], where the
    capacity is [2^64 + outputAmount]: [addOutput] never throws, any
    number of streams can be attached one after the other, and
    [size (outputs d) <= outputAmount d] does not hold. *)
Theorem negative_capacity_unbounded (d : Device) (s : ptr) (ss : list ptr) :
  is_int (outputAmount d) -> outputAmount d < 0 ->
  vector_ok (outputs d ++ ss) ->
  to_size_t (outputAmount d) = 2 ^ 64 + outputAmount d
  /\ Device_addOutput s d = (Ok tt, push_output s d)
  /\ (exists d', for_each Device_addOutput ss d = (Ok tt, d') /\
                 outputs d' = outputs d ++ ss /\
                 outputAmount d' = outputAmount d /\
                 ~ size (outputs d') <= outputAmount d').
Proof.
  intros Hint Hneg Hv. split; [|split].
  - apply to_size_t_negative. apply is_int_bounds in Hint. lia.
  - apply Device_addOutput_negative; [done..|].
    unfold vector_ok in *. rewrite size_app in Hv.
    pose proof (size_nonneg ss). lia.
  - eexists. split; [by apply for_each_addOutput_negative|].
    cbn [outputs outputAmount]. repeat split.
    pose proof (size_nonneg (outputs d ++ ss)). lia.
Qed.

(** Divider(-1) takes three outputs, and would take more. *)
Lemma negative_capacity_unbounded_witness :
  let d := Divider_base (Divider_new (-1)) in
  Device_addOutput 1%nat d = (Ok tt, push_output 1%nat d) /\
  exists d', for_each Device_addOutput [1%nat; 2%nat; 3%nat] d = (Ok tt, d') /\
             outputs d' = [1%nat; 2%nat; 3%nat] /\ outputAmount d' = -1.
Proof.
  intros d.
  destruct (negative_capacity_unbounded d 1%nat [1%nat; 2%nat; 3%nat])
    as (_ & Hone & d' & Hd' & Hout & Hcap & _).
  - cbv. split; discriminate.
  - reflexivity.
  - cbv. discriminate.
  - split; [exact Hone|]. by exists d'.
Defined.

(** ** Writing one value through a vector of handles, live or not *)

Section Writes.
Variable m : double.

Local Abbreviation writes := (for_each (fun p => setMassFlow p m)).

Lemma writes_cons p v h :
  writes (p :: v) h =
  match h !! p with
  | Some s => writes v (<[p := mkStream m (name s)]> h)
  | None => (Undefined, h)
  end.
Proof.
  cbn [for_each]. unfold bind, setMassFlow.
  by destruct (h !! p).
Qed.

Lemma writes_no_throw v : forall h e h', writes v h <> (Throw e, h').
Proof.
  induction v as [|p v IH]; intros h e h'; [done|].
  rewrite writes_cons. destruct (h !! p); [apply IH | done].
Qed.

Lemma writes_frame v : forall h r h' p,
  writes v h = (r, h') -> p ∉ v -> h' !! p = h !! p.
Proof.
  induction v as [|q v IH]; intros h r h' p.
  - by intros [= _ <-].
  - rewrite writes_cons. intros Hrun [Hne Hp]%not_elem_of_cons.
    destruct (h !! q) as [s|] eqn:Hq; [|by injection Hrun as _ <-].
    rewrite (IH _ _ _ _ Hrun Hp). by rewrite lookup_insert_ne.
Qed.

(** A stream that already carries [m] is left as it is. *)
Lemma writes_keep v : forall h r h' p s,
  writes v h = (r, h') -> h !! p = Some s -> mass_flow s = m ->
  h' !! p = Some s.
Proof.
  induction v as [|q v IH]; intros h r h' p s.
  - by intros [= _ <-].
  - rewrite writes_cons. intros Hrun Hp Hm.
    destruct (h !! q) as [t|] eqn:Hq; [|by injection Hrun as _ <-].
    eapply IH; [exact Hrun| |exact Hm].
    destruct (decide (q = p)) as [->|Hne].
    + rewrite lookup_insert_eq. rewrite Hp in Hq. injection Hq as <-.
      destruct s as [f n]. simpl in *. by subst.
    + by rewrite lookup_insert_ne.
Qed.

Lemma writes_ok_flow v : forall h h' o,
  writes v h = (Ok tt, h') -> o ∈ v -> flow h' o = Some m.
Proof.
  induction v as [|q v IH]; intros h h' o Hrun Ho; [by apply elem_of_nil in Ho|].
  rewrite writes_cons in Hrun.
  destruct (h !! q) as [t|] eqn:Hq; [|done].
  destruct (decide (o ∈ v)) as [Hin|Hout]; [by eapply IH|].
  apply elem_of_cons in Ho as [->|]; [|done].
  unfold flow. erewrite writes_keep; [| exact Hrun | apply lookup_insert_eq | done].
  done.
Qed.

(** Running the same writes again changes nothing. *)
Lemma writes_idem v : forall h r h',
  writes v h = (r, h') -> writes v h' = (r, h').
Proof.
  induction v as [|q v IH]; intros h r h'.
  - by intros [= <- <-].
  - rewrite !writes_cons. intros Hrun.
    destruct (h !! q) as [t|] eqn:Hq.
    + erewrite writes_keep; [| exact Hrun | apply lookup_insert_eq | done].
      cbn [name]. rewrite insert_id.
      * by eapply IH.
      * eapply writes_keep; [exact Hrun | apply lookup_insert_eq | done].
    + injection Hrun as <- <-. by rewrite Hq.
Qed.
End Writes.

(** ** What a failed or repeated update leaves behind *)

Lemma sum_inputs_no_throw v : forall acc h e h', sum_inputs v acc h <> (Throw e, h').
Proof.
  induction v as [|p v IH]; intros acc h e h'; [done|].
  cbn [sum_inputs]. unfold bind, getMassFlow.
  destruct (h !! p); [apply IH | done].
Qed.

Lemma sum_inputs_ext v : forall acc h1 h2,
  (forall p, p ∈ v -> h2 !! p = h1 !! p) ->
  fst (sum_inputs v acc h2) = fst (sum_inputs v acc h1).
Proof.
  induction v as [|p v IH]; intros acc h1 h2 Hsame; [done|].
  cbn [sum_inputs]. unfold bind, getMassFlow.
  rewrite (Hsame p) by set_solver.
  destruct (h1 !! p); [|done]. apply IH. intros q Hq. apply Hsame. set_solver.
Qed.

Lemma Mixer_updateOutputs_cases (this : Mixer) h :
  (sum_inputs (inputs (Mixer_base this)) 0 h = (Undefined, h) /\
   Mixer_updateOutputs this h = (Undefined, h))
  \/ (exists sum,
       sum_inputs (inputs (Mixer_base this)) 0 h = (Ok sum, h) /\
       Mixer_updateOutputs this h =
       if empty (outputs (Mixer_base this))
       then (Throw (ExnString "Should set outputs before update"), h)
       else for_each
              (fun p => setMassFlow p
                 (sum / double_of_Z (size (outputs (Mixer_base this))))%float)
              (outputs (Mixer_base this)) h).
Proof.
  unfold Mixer_updateOutputs, bind.
  destruct (sum_inputs (inputs (Mixer_base this)) 0 h) as [[sum|e|] h0] eqn:Hsum.
  - pose proof (sum_inputs_store _ _ _ _ _ Hsum) as ->. right. exists sum.
    split; [done|]. by destruct (empty _).
  - by apply sum_inputs_no_throw in Hsum.
  - pose proof (sum_inputs_store _ _ _ _ _ Hsum) as ->. by left.
Qed.

Lemma Divider_updateOutputs_cases (this : Divider) h :
  Divider_updateOutputs this h =
  match inputs (Divider_base this) with
  | [] => (Throw (ExnCStr Divider_message), h)
  | p :: _ =>
      if empty (outputs (Divider_base this))
      then (Throw (ExnCStr Divider_message), h)
      else match h !! p with
           | None => (Undefined, h)
           | Some s =>
               for_each
                 (fun o => setMassFlow o
                    (mass_flow s /
                     double_of_Z (size (outputs (Divider_base this))))%float)
                 (outputs (Divider_base this)) h
           end
  end.
Proof.
  unfold Divider_updateOutputs.
  destruct (inputs (Divider_base this)) as [|p v]; [done|]. cbn [empty orb].
  destruct (empty (outputs (Divider_base this))); [done|].
  rewrite (bind_ok (lift _) _ h p h) by done.
  unfold bind, getMassFlow. by destruct (h !! p).
Qed.

(** C6. An update of a mixer or of a divider that throws does so before
    any write: the exception is the precursor-missing one, a required
    port list is empty, and the store is the one before the call. An
    update that succeeds has written one value through every attached
    output. *)
Theorem precondition_failure_atomic :
  (forall (this : Mixer) h e h',
     Mixer_updateOutputs this h = (Throw e, h') ->
     classify e = Some PrecursorMissing /\
     outputs (Mixer_base this) = [] /\ h' = h)
  /\ (forall (this : Divider) h e h',
     Divider_updateOutputs this h = (Throw e, h') ->
     classify e = Some PrecursorMissing /\
     (inputs (Divider_base this) = [] \/ outputs (Divider_base this) = []) /\
     h' = h)
  /\ (forall (this : Mixer) h h',
     Mixer_updateOutputs this h = (Ok tt, h') ->
     exists m, forall o, o ∈ outputs (Mixer_base this) -> flow h' o = Some m)
  /\ (forall (this : Divider) h h',
     Divider_updateOutputs this h = (Ok tt, h') ->
     exists m, forall o, o ∈ outputs (Divider_base this) -> flow h' o = Some m).
Proof.
  repeat apply conj.
  - intros this h e h' Hrun.
    destruct (Mixer_updateOutputs_cases this h) as [[_ Hu]|(sum & _ & Hu)];
      rewrite Hu in Hrun; [done|].
    destruct (outputs (Mixer_base this)) as [|o v] eqn:Ho; cbn [empty] in Hrun.
    + injection Hrun as <- <-. by vm_compute.
    + by apply writes_no_throw in Hrun.
  - intros this h e h' Hrun. rewrite Divider_updateOutputs_cases in Hrun.
    destruct (inputs (Divider_base this)) as [|p v] eqn:Hi.
    { injection Hrun as <- <-. split; [by vm_compute|]. split; [by left|done]. }
    destruct (outputs (Divider_base this)) as [|o w] eqn:Ho; cbn [empty] in Hrun.
    { injection Hrun as <- <-. split; [by vm_compute|]. split; [by right|done]. }
    destruct (h !! p); [by apply writes_no_throw in Hrun | done].
  - intros this h h' Hrun.
    destruct (Mixer_updateOutputs_cases this h) as [[_ Hu]|(sum & _ & Hu)];
      rewrite Hu in Hrun; [done|].
    destruct (outputs (Mixer_base this)) as [|o v] eqn:Ho; cbn [empty] in Hrun;
      [done|].
    eexists. intros q Hq. eapply writes_ok_flow; [exact Hrun | done].
  - intros this h h' Hrun. rewrite Divider_updateOutputs_cases in Hrun.
    destruct (inputs (Divider_base this)) as [|p v] eqn:Hi; [done|].
    destruct (outputs (Divider_base this)) as [|o w] eqn:Ho; cbn [empty] in Hrun;
      [done|].
    destruct (h !! p); [|done].
    eexists. intros q Hq. eapply writes_ok_flow; [exact Hrun | done].
Qed.

(** Scenario 5 of the specification: Divider(2), no input, one output. *)
Lemma precondition_failure_atomic_witness :
  let this := mkDivider (mkDevice [] [1%nat] 1 2) in
  let h : heap := <[1%nat := mkStream 7 "s1"]> ∅ in
  exists e, Divider_updateOutputs this h = (Throw e, h) /\
            classify e = Some PrecursorMissing.
Proof.
  intros this h.
  destruct precondition_failure_atomic as (_ & Hdiv & _).
  destruct (Divider_updateOutputs this h) as [[[]|e|] h'] eqn:Hrun;
    try discriminate Hrun.
  destruct (Hdiv this h e h' Hrun) as (Hc & _ & ->).
  by exists e.
Defined.

Lemma Reactor_updateOutputs_cases (this : Reactor) h :
  Reactor_inv this ->
  Reactor_updateOutputs this h =
  match inputs (Reactor_base this) with
  | [] => (Throw ExnOutOfRange, h)
  | p :: _ =>
      match h !! p with
      | None => (Undefined, h)
      | Some s =>
          bind (for_each
                  (fun q => setMassFlow q
                     (mass_flow s /
                      double_of_Z (outputAmount (Reactor_base this)))%float)
                  (take (Z.to_nat (outputAmount (Reactor_base this)))
                        (outputs (Reactor_base this))))
               (fun _ => if outputAmount (Reactor_base this)
                              <=? size (outputs (Reactor_base this))
                         then ret tt else throw ExnOutOfRange) h
      end
  end.
Proof.
  intros Hinv.
  destruct (inputs (Reactor_base this)) as [|p v] eqn:Hin.
  - unfold Reactor_updateOutputs. by rewrite Hin.
  - destruct (h !! p) as [s|] eqn:Hp.
    + apply (Reactor_updateOutputs_run _ _ _ _ _ Hinv Hin).
      unfold flow. by rewrite Hp.
    + unfold Reactor_updateOutputs. rewrite Hin.
      rewrite (bind_ok (lift _) _ h p h) by done.
      unfold bind at 1. unfold getMassFlow. by rewrite Hp.
Qed.

(** C7, as stated, fails when a stream is attached to a device both as an
    input and as an output: the update overwrites the input, and a second
    update writes other values than the first. *)
Lemma update_mutates_aliased_input :
  ~ (forall (dev : device) (h : heap) r h',
       device_inv dev ->
       updateOutputs dev h = (r, h') ->
       (forall p, p ∈ inputs (base dev) -> flow h' p = flow h p) /\
       updateOutputs dev h' = (r, h')).
Proof.
  intros Hclaim.
  pose (dev := DDivider (mkDivider (mkDevice [1%nat] [1%nat; 2%nat] 1 2))).
  pose (h := (<[1%nat := mkStream 10 "s1"]>
              (<[2%nat := mkStream 0 "s2"]> ∅)) : heap).
  destruct (updateOutputs dev h) as [r h'] eqn:Hrun.
  destruct (Hclaim dev h r h') as [Hinputs _]; [| exact Hrun |].
  { split; [reflexivity|]. cbv. split; discriminate. }
  specialize (Hinputs 1%nat (list_elem_of_here _ _)).
  vm_compute in Hrun. injection Hrun as <- <-.
  apply (f_equal (fun o => match o with
                           | Some f => PrimFloat.eqb f 10
                           | None => false
                           end)) in Hinputs.
  vm_compute in Hinputs. discriminate.
Qed.

(** C7, amended. When no stream is attached to the device both as an input
    and as an output, [updateOutputs] leaves every input stream as it was,
    and calling it again gives the same result and the same store. *)
Theorem update_idempotent (dev : device) (h : heap) (r : outcome unit) (h' : heap) :
  device_inv dev ->
  (forall p, p ∈ inputs (base dev) -> p ∉ outputs (base dev)) ->
  updateOutputs dev h = (r, h') ->
  (forall p, p ∈ inputs (base dev) -> h' !! p = h !! p) /\
  updateOutputs dev h' = (r, h').
Proof.
  intros Hinv Hdisj Hrun.
  destruct dev as [this|this|this]; cbn [updateOutputs base device_inv] in *.
  - (* Mixer *)
    destruct (Mixer_updateOutputs_cases this h) as [[Hs Hu]|(sum & Hs & Hu)];
      rewrite Hu in Hrun.
    { by injection Hrun as <- <-. }
    destruct (outputs (Mixer_base this)) as [|o v] eqn:Ho; cbn [empty] in Hrun.
    { by injection Hrun as <- <-. }
    assert (Hframe : forall p, p ∈ inputs (Mixer_base this) -> h' !! p = h !! p).
    { intros p Hp. eapply writes_frame; [exact Hrun | by apply Hdisj]. }
    split; [done|].
    destruct (Mixer_updateOutputs_cases this h') as [[Hs' Hu']|(sum' & Hs' & Hu')].
    + pose proof (sum_inputs_ext _ 0%float _ _ Hframe) as Hext.
      rewrite Hs, Hs' in Hext. done.
    + pose proof (sum_inputs_ext _ 0%float _ _ Hframe) as Hext.
      rewrite Hs, Hs' in Hext. injection Hext as ->.
      rewrite Hu', Ho. cbn [empty]. by eapply writes_idem.
  - (* Reactor *)
    rewrite (Reactor_updateOutputs_cases _ _ Hinv) in Hrun.
    rewrite (Reactor_updateOutputs_cases _ _ Hinv).
    destruct (inputs (Reactor_base this)) as [|p v] eqn:Hin.
    { by injection Hrun as <- <-. }
    destruct (h !! p) as [s|] eqn:Hp; cycle 1.
    { injection Hrun as <- <-. by rewrite Hp. }
    unfold bind in Hrun.
    destruct (for_each _ _ h) as [[[]|e|] h1] eqn:Hw.
    + assert (Hframe : forall q, q ∈ p :: v -> h1 !! q = h !! q).
      { intros q Hq. eapply writes_frame; [exact Hw|].
        intros Hq'%subseteq_take. by eapply Hdisj. }
      assert (h' = h1) as -> by (by destruct (_ <=? _); injection Hrun as _ <-).
      split; [done|].
      rewrite (Hframe p) by set_solver. rewrite Hp.
      unfold bind. erewrite writes_idem by exact Hw. done.
    + by apply writes_no_throw in Hw.
    + injection Hrun as <- <-.
      assert (Hframe : forall q, q ∈ p :: v -> h1 !! q = h !! q).
      { intros q Hq. eapply writes_frame; [exact Hw|].
        intros Hq'%subseteq_take. by eapply Hdisj. }
      split; [done|].
      rewrite (Hframe p) by set_solver. rewrite Hp.
      unfold bind. by erewrite writes_idem by exact Hw.
  - (* Divider *)
    rewrite Divider_updateOutputs_cases in Hrun.
    rewrite Divider_updateOutputs_cases.
    destruct (inputs (Divider_base this)) as [|p v] eqn:Hin.
    { by injection Hrun as <- <-. }
    destruct (outputs (Divider_base this)) as [|o w] eqn:Ho; cbn [empty] in *.
    { by injection Hrun as <- <-. }
    destruct (h !! p) as [s|] eqn:Hp; cycle 1.
    { injection Hrun as <- <-. by rewrite Hp. }
    assert (Hframe : forall q, q ∈ p :: v -> h' !! q = h !! q).
    { intros q Hq. eapply writes_frame; [exact Hrun | by apply Hdisj]. }
    split; [done|].
    rewrite (Hframe p) by set_solver. rewrite Hp. by eapply writes_idem.
Qed.

(** Scenario 3 of the specification, run twice: Divider(3), input 12.0. *)
Lemma update_idempotent_witness :
  let dev := DDivider (mkDivider (mkDevice [1%nat] [2%nat; 3%nat; 4%nat] 1 3)) in
  let h : heap := <[1%nat := mkStream 12 "s1"]>
                  (<[2%nat := mkStream 0 "s2"]>
                  (<[3%nat := mkStream 0 "s3"]>
                  (<[4%nat := mkStream 0 "s4"]> ∅))) in
  exists h', updateOutputs dev h = (Ok tt, h') /\
             flow h' 2%nat = Some 4%float /\
             h' !! 1%nat = h !! 1%nat /\
             updateOutputs dev h' = (Ok tt, h').
Proof.
  intros dev h.
  destruct (updateOutputs dev h) as [r h'] eqn:Hrun.
  destruct (update_idempotent dev h r h') as [Hin Hagain].
  - split; [reflexivity|]. cbv. split; discriminate.
  - intros p Hp Hq. cbn in Hp, Hq.
    apply list_elem_of_singleton in Hp as ->.
    repeat (apply elem_of_cons in Hq as [Hq|Hq]; [discriminate|]).
    by apply elem_of_nil in Hq.
  - exact Hrun.
  - vm_compute in Hrun. injection Hrun as <- <-.
    eexists. split; [reflexivity|]. split; [reflexivity|].
    split; [apply Hin; apply list_elem_of_here | exact Hagain].
Defined.

(** ** Doubles: sums that are exact *)

Lemma positive_finite_spec x :
  positive_finite x = true ->
  exists m e, Prim2SF x = S754_finite false m e.
Proof.
  unfold positive_finite. rewrite !ltb_spec.
  change (Prim2SF 0) with (S754_zero false).
  change (Prim2SF infinity) with (S754_infinity false).
  intros [H0 Hinf]%andb_prop.
  destruct (Prim2SF x) as [s|s| |s m e]; try done.
  - by destruct s.
  - destruct s; [done|]. by exists m, e.
Qed.

Lemma halves_exactly_spec x :
  halves_exactly x = true ->
  exists m e, Prim2SF x = S754_finite false m e /\ -1073 <= e.
Proof.
  unfold halves_exactly. rewrite leb_spec, ltb_spec.
  change (Prim2SF 0x1p-1021) with (S754_finite false 4503599627370496 (-1073)).
  change (Prim2SF infinity) with (S754_infinity false).
  intros [H0 Hinf]%andb_prop.
  destruct (Prim2SF x) as [s|s| |s m e]; try done.
  - by destruct s.
  - destruct s; [done|]. exists m, e. split; [done|].
    unfold SFleb, SFcompare in H0.
    destruct (Z.compare_spec (-1073) e); try lia.
Qed.

Lemma add_zero_l x m e :
  Prim2SF x = S754_finite false m e -> (0 + x)%float = x.
Proof.
  intros Hx. apply Prim2SF_inj. rewrite add_spec, Hx. done.
Qed.

Lemma sub_self_close x m e :
  Prim2SF x = S754_finite false m e -> close_to x x = true.
Proof.
  intros Hx. unfold close_to. rewrite ltb_spec, abs_spec, sub_spec, Hx.
  unfold SF64sub, SFsub. rewrite Z.min_id.
  by rewrite Z.sub_diag.
Qed.

Lemma half_add_half x m e :
  Prim2SF x = S754_finite false m e -> -1073 <= e ->
  (x / 2 + x / 2)%float = x.
Proof.
  intros Hx He. pose proof (Prim2SF_valid x) as Hv. rewrite Hx in Hv.
  pose proof Hv as Hb. apply valid_finite in Hb as (He' & Hd & Hc).
  assert (Hv' : valid_binary (S754_finite false m (e - 1)) = true).
  { simpl in *. unfold bounded, canonical_mantissa, fexp, SpecFloat.emin, prec, emax in *.
    apply andb_true_intro. split; [apply Z.eqb_eq | apply Z.leb_le]; lia. }
  apply Prim2SF_inj. rewrite add_spec, div_spec, Hx.
  change (Prim2SF 2) with (S754_finite false (Pos.iter xO 1%positive 52) (-51)).
  unfold SF64div. replace (e - 1) with (e - -51 - 52) in Hv' by lia.
  rewrite (SFdiv_pow2 _ _ _ _ Hv').
  replace (e - -51 - 52) with (e - 1) in * by lia.
  unfold SF64add, SFadd. rewrite Z.min_id.
  unfold shl_align. rewrite Z.sub_diag. cbn [fst cond_Zopp].
  change (Z.pos m + Z.pos m) with (Z.pos (Pos.add m m)).
  rewrite Pos.add_diag. unfold binary_normalize, binary_round, shl_align.
  cbn [digits2_pos]. rewrite Pos2Z.inj_succ.
  replace (fexp prec emax (Z.succ (Z.pos (digits2_pos m)) + (e - 1)) - (e - 1))
    with 1 by (unfold fexp, SpecFloat.emin, prec, emax; lia).
  change (m~0)%positive with (Pos.iter xO m 1).
  rewrite binary_round_aux_iter_xO; replace (e - 1 + 1) with e by lia; done.
Qed.

(** ** Doubles: halving at the lowest exponent *)

Lemma digits2_pos_bounds p :
  2 ^ (Z.pos (digits2_pos p) - 1) <= Z.pos p < 2 ^ Z.pos (digits2_pos p).
Proof.
  induction p as [p IH|p IH|]; [| |done]; cbn [digits2_pos];
    rewrite Pos2Z.inj_succ;
    replace (Z.succ (Z.pos (digits2_pos p)) - 1)
      with (Z.succ (Z.pos (digits2_pos p) - 1)) by lia;
    rewrite !Z.pow_succ_r by lia; lia.
Qed.

Lemma Zdigits2_le q k : 0 <= q < 2 ^ k -> 0 <= k -> 0 <= Zdigits2 q <= k.
Proof.
  intros Hq Hk. destruct q as [|p|p]; [simpl; lia| |lia].
  cbn [Zdigits2]. split; [lia|].
  destruct (Z.le_gt_cases (Z.pos (digits2_pos p)) k) as [|Hgt]; [done|].
  pose proof (digits2_pos_bounds p) as [Hlo _].
  assert (2 ^ k <= 2 ^ (Z.pos (digits2_pos p) - 1))
    by (apply Z.pow_le_mono_r; lia).
  lia.
Qed.

Lemma binary_round_aux_tiny s q l :
  0 <= q < 2 ^ 52 ->
  binary_round_aux prec emax s q (-1074) l = tiny s (round_nearest_even q l).
Proof.
  intros Hq. pose proof (Zdigits2_le q 52 Hq ltac:(lia)) as Hd.
  unfold binary_round_aux, shr_fexp.
  replace (fexp prec emax (Zdigits2 q + -1074) - -1074) with 0 by fexp_lia.
  cbn [shr].
  assert (Hrec : shr_m (shr_record_of_loc q l) = q /\
                 loc_of_shr_record (shr_record_of_loc q l) = l)
    by (by destruct l as [|[]]).
  destruct Hrec as [-> ->].
  set (q' := round_nearest_even q l).
  assert (Hq' : 0 <= q' < 2 ^ 53).
  { unfold q', round_nearest_even. destruct l as [|[]]; try lia.
    destruct (Z.even q); lia. }
  pose proof (Zdigits2_le q' 53 Hq' ltac:(lia)) as Hd'.
  replace (fexp prec emax (Zdigits2 q' + -1074) - -1074) with 0 by fexp_lia.
  cbn [shr shr_record_of_loc shr_m].
  destruct q' as [|r|r]; [done| |lia]. done.
Qed.

Lemma SFdiv_two_tiny s m :
  valid_binary (S754_finite s m (-1074)) = true ->
  SFdiv prec emax (S754_finite s m (-1074))
        (S754_finite false (Pos.iter xO 1%positive 52) (-51)) =
  tiny s (round_nearest_even (Z.pos m / 2)
            (if Z.odd (Z.pos m) then loc_Inexact Eq else loc_Exact)).
Proof.
  intros Hv. apply valid_finite in Hv as (He & Hd & Hc).
  pose proof (digits2_pos_bounds m) as [_ Hm].
  assert (Hm53 : Z.pos m < 2 ^ 53).
  { eapply Z.lt_le_trans; [exact Hm|]. apply Z.pow_le_mono_r; lia. }
  unfold SFdiv, SFdiv_core_binary. rewrite xorb_false_r.
  cbn [Zdigits2]. rewrite digits2_iter_xO.
  change (Z.pos (digits2_pos 1)) with 1.
  replace (fexp prec emax (Z.pos (digits2_pos m) + -1074 - (1 + 52 + -51))
           `min` (-1074 - -51)) with (-1074) by fexp_lia.
  change (-1074 - -51 - -1074) with 51.
  rewrite Z.shiftl_mul_pow2 by lia.
  change (Z.pos (Pos.iter xO 1%positive 52)) with (2 ^ 52).
  pose proof (Z.div_mod (Z.pos m) 2 ltac:(lia)) as Hdm.
  pose proof (Z.mod_pos_bound (Z.pos m) 2 ltac:(lia)) as Hr.
  rewrite (div_eucl_unique (Z.pos m * 2 ^ 51) (2 ^ 52) (Z.pos m / 2)
             (Z.pos m mod 2 * 2 ^ 51)) by lia.
  rewrite binary_round_aux_tiny by lia.
  f_equal. f_equal. rewrite Zodd_mod.
  destruct (decide (Z.pos m mod 2 = 0)) as [->|Hodd]; [done|].
  by replace (Z.pos m mod 2) with 1 by lia.
Qed.

Lemma tiny_sub_close a ea m :
  (ea = -1074 /\ -1 <= Z.pos a - Z.pos m <= 1) \/
  (ea = -1073 /\ -1 <= Z.pos a~0 - Z.pos m <= 1) ->
  SFltb (SFabs (SF64sub (S754_finite false a ea) (S754_finite false m (-1074))))
        (Prim2SF POSSIBLE_ERROR) = true.
Proof.
  let v := eval vm_compute in (Prim2SF POSSIBLE_ERROR) in
    change (Prim2SF POSSIBLE_ERROR) with v.
  unfold SF64sub, SFsub.
  assert (Hnorm : forall d, -1 <= d <= 1 ->
    SFltb (SFabs (binary_normalize prec emax d (-1074) false))
          (S754_finite false 5764607394185216 (-59)) = true).
  { intros d Hd.
    assert (d = -1 \/ d = 0 \/ d = 1) as [-> | [-> | ->]] by lia; done. }
  intros [[-> Hd]|[-> Hd]].
  - change ((-1074) `min` (-1074)) with (-1074).
    change (shl_align a (-1074) (-1074)) with (a, -1074).
    change (shl_align m (-1074) (-1074)) with (m, -1074).
    by apply Hnorm.
  - change ((-1073) `min` (-1074)) with (-1074).
    change (shl_align a (-1073) (-1074)) with (a~0%positive, -1074).
    change (shl_align m (-1074) (-1074)) with (m, -1074).
    by apply Hnorm.
Qed.

Lemma valid_tiny s a :
  Z.pos (digits2_pos a) <= 53 -> valid_binary (S754_finite s a (-1074)) = true.
Proof.
  intros Hd. cbn [valid_binary]. unfold bounded, canonical_mantissa.
  apply andb_true_intro. split; [apply Z.eqb_eq; fexp_lia | done].
Qed.

Lemma tiny_double r :
  Z.pos r <= 2 ^ 52 ->
  exists a ea,
    SF64add (S754_finite false r (-1074)) (S754_finite false r (-1074)) =
      S754_finite false a ea /\
    ((ea = -1074 /\ a = r~0%positive) \/ (ea = -1073 /\ a = r)).
Proof.
  intros Hr. unfold SF64add, SFadd.
  change ((-1074) `min` (-1074)) with (-1074).
  change (shl_align r (-1074) (-1074)) with (r, -1074).
  cbn [fst cond_Zopp].
  change (Z.pos r + Z.pos r) with (Z.pos (Pos.add r r)).
  rewrite Pos.add_diag. unfold binary_normalize, binary_round.
  pose proof (digits2_pos_bounds r) as [Hlo Hhi].
  destruct (decide (Z.pos r = 2 ^ 52)) as [Heq|Hne].
  - assert (Hd : Z.pos (digits2_pos r) = 53).
    { destruct (Z.lt_trichotomy (Z.pos (digits2_pos r)) 53) as [Hlt|[?|Hgt]];
        [|done|].
      - assert (2 ^ Z.pos (digits2_pos r) <= 2 ^ 52)
          by (apply Z.pow_le_mono_r; lia). lia.
      - assert (2 ^ 53 <= 2 ^ (Z.pos (digits2_pos r) - 1))
          by (apply Z.pow_le_mono_r; lia). lia. }
    exists r, (-1073). split; [|by right].
    unfold shl_align. cbn [digits2_pos]. rewrite Pos2Z.inj_succ, Hd.
    change (fexp prec emax (Z.succ 53 + -1074) - -1074) with 1.
    cbv iota beta.
    change (r~0)%positive with (Pos.iter xO r 1).
    rewrite binary_round_aux_iter_xO; [done|].
    simpl. unfold bounded, canonical_mantissa. rewrite Hd. done.
  - assert (Hd : Z.pos (digits2_pos r) <= 52).
    { destruct (Z.le_gt_cases (Z.pos (digits2_pos r)) 52) as [|Hgt]; [done|].
      assert (2 ^ 52 <= 2 ^ (Z.pos (digits2_pos r) - 1))
        by (apply Z.pow_le_mono_r; lia). lia. }
    exists (r~0)%positive, (-1074). split; [|by left].
    unfold shl_align. cbn [digits2_pos]. rewrite Pos2Z.inj_succ.
    replace (fexp prec emax (Z.succ (Z.pos (digits2_pos r)) + -1074) - -1074)
      with 0 by fexp_lia.
    cbv iota beta. apply binary_round_aux_canonical, valid_tiny.
    cbn [digits2_pos]. lia.
Qed.

(** Halving an input of the lowest exponent loses at most its last bit:
    the two halves add up to the input or to a neighbour of it. *)
Lemma halves_close_tiny x m :
  Prim2SF x = S754_finite false m (-1074) ->
  close_to (0 + x / 2 + x / 2) x = true.
Proof.
  intros Hx. pose proof (Prim2SF_valid x) as Hv. rewrite Hx in Hv.
  pose proof Hv as Hb. apply valid_finite in Hb as (_ & Hd & _).
  pose proof (digits2_pos_bounds m) as [_ Hm].
  assert (Hm53 : Z.pos m < 2 ^ 53).
  { eapply Z.lt_le_trans; [exact Hm|]. apply Z.pow_le_mono_r; lia. }
  unfold close_to. rewrite ltb_spec, abs_spec, sub_spec, !add_spec, div_spec, Hx.
  change (Prim2SF 2) with (S754_finite false (Pos.iter xO 1%positive 52) (-51)).
  change (Prim2SF 0) with (S754_zero false).
  unfold SF64div. rewrite (SFdiv_two_tiny _ _ Hv).
  pose proof (Z.div_mod (Z.pos m) 2 ltac:(lia)) as Hdm.
  pose proof (Z.mod_pos_bound (Z.pos m) 2 ltac:(lia)) as Hr.
  set (q := round_nearest_even _ _).
  assert (Hq : 0 <= q <= 2 ^ 52 /\ -1 <= 2 * q - Z.pos m <= 1).
  { unfold q. destruct (Z.odd (Z.pos m)) eqn:Ho; cbn [round_nearest_even].
    - apply Z.odd_spec in Ho as [k Hk].
      destruct (Z.even (Z.pos m / 2)) eqn:He; [lia|].
      assert (Z.odd (Z.pos m / 2) = true) as [j Hj]%Z.odd_spec
        by (by rewrite <- Z.negb_even, He).
      lia.
    - assert (Z.even (Z.pos m) = true) as [k Hk]%Z.even_spec
        by (by rewrite <- Z.negb_odd, Ho).
      lia. }
  destruct Hq as [Hq Hdelta]. clearbody q.
  destruct q as [|r|r]; [| |lia].
  - cbn [tiny]. change (SF64add (S754_zero false) (S754_zero false))
      with (S754_zero false).
    change (SF64add (S754_zero false) (S754_zero false)) with (S754_zero false).
    unfold SF64sub, SFsub. cbn [negb SFabs].
    let v := eval vm_compute in (Prim2SF POSSIBLE_ERROR) in
      change (Prim2SF POSSIBLE_ERROR) with v.
    done.
  - cbn [tiny].
    change (SF64add (S754_zero false) (S754_finite false r (-1074)))
      with (S754_finite false r (-1074)).
    destruct (tiny_double r ltac:(lia)) as (a & ea & -> & Hcase).
    apply tiny_sub_close.
    destruct Hcase as [[-> ->]|[-> ->]]; [left|right]; (split; [done|lia]).
Qed.

(** ** Doubles: the rounding error of a quotient and of a sum

    Each operation returns a double within one unit of the last place
    of its exact result. For operands below [2^T] that unit is at most
    [2^(T-53)], whatever the operands are: an absolute bound, which adds
    up over the shares of a divider. *)

Lemma pow2_add a b : 0 <= a -> 0 <= b -> 2 ^ (a + b) = 2 ^ a * 2 ^ b.
Proof. intros. by apply Z.pow_add_r. Qed.

Lemma pow2_pos a : 0 <= a -> 0 < 2 ^ a.
Proof. intros. by apply Z.pow_pos_nonneg. Qed.

Lemma pow2_le a b : 0 <= a <= b -> 2 ^ a <= 2 ^ b.
Proof. intros. apply Z.pow_le_mono_r; lia. Qed.

Lemma shr_m_of_loc m l : shr_m (shr_record_of_loc m l) = m.
Proof. by destruct l as [|[]]. Qed.

Lemma shr_1_div2 r : 0 <= shr_m r -> shr_m (shr_1 r) = shr_m r / 2.
Proof.
  destruct r as [m r s]. cbn [shr_m]. intros Hm.
  destruct m as [|[p|p|]|p]; cbn [shr_1 shr_m]; try done; try lia.
  - apply (Z.div_unique _ 2 _ 1); lia.
  - apply (Z.div_unique _ 2 _ 0); lia.
Qed.

Lemma iter_shr_1_div r k :
  0 <= shr_m r ->
  shr_m (SpecFloat.iter_pos shr_1 k r) = shr_m r / 2 ^ Z.pos k.
Proof.
  intros Hm. rewrite iter_pos_iter.
  induction k as [|k IH] using Pos.peano_ind.
  - cbn [Pos.iter]. by rewrite shr_1_div2.
  - rewrite Pos.iter_succ, shr_1_div2, IH.
    + rewrite Pos2Z.inj_succ, Z.pow_succ_r by lia.
      rewrite Z.div_div by lia. f_equal. lia.
    + rewrite IH. apply Z.div_pos; [done|]. by apply pow2_pos.
Qed.

Lemma shr_spec r e n :
  0 <= shr_m r ->
  shr_m (fst (shr r e n)) = shr_m r / 2 ^ Z.max 0 n /\
  snd (shr r e n) = e + Z.max 0 n.
Proof.
  intros Hm. destruct n as [|k|k]; cbn [shr fst snd].
  - change (Z.max 0 0) with 0. rewrite Z.div_1_r. lia.
  - rewrite iter_shr_1_div by done. by rewrite Z.max_r by lia.
  - rewrite Z.max_l by lia. rewrite Z.div_1_r. lia.
Qed.

Lemma round_nearest_even_cases m l :
  round_nearest_even m l = m \/ round_nearest_even m l = m + 1.
Proof. destruct l as [|[]]; cbn; try (by left); try (by right). destruct (Z.even m); auto. Qed.

Lemma Zdigits2_bound m : 0 <= m -> m < 2 ^ Zdigits2 m /\ 0 <= Zdigits2 m.
Proof.
  intros Hm. destruct m as [|p|p]; [done| |lia].
  cbn [Zdigits2]. pose proof (digits2_pos_bounds p). lia.
Qed.

(** Rounding to nearest: the result is the mantissa cut to the working
    exponent, or its successor. *)
Lemma binary_round_aux_cut mx e l :
  0 <= mx -> -1074 <= e ->
  let E' := Z.max e (fexp prec emax (Zdigits2 mx + e)) in
  E' <= 970 ->
  exists M, (M = mx / 2 ^ (E' - e) \/ M = mx / 2 ^ (E' - e) + 1) /\
    nonneg_finite (binary_round_aux prec emax false mx e l) = true /\
    val (binary_round_aux prec emax false mx e l) = M * 2 ^ (E' + 1074).
Proof.
  intros Hmx He E' HE'.
  unfold binary_round_aux, shr_fexp.
  set (n := fexp prec emax (Zdigits2 mx + e) - e).
  assert (Hk : E' - e = Z.max 0 n) by (unfold E', n; lia).
  pose proof (shr_spec (shr_record_of_loc mx l) e n) as Hshr.
  rewrite shr_m_of_loc in Hshr. specialize (Hshr Hmx).
  destruct (shr (shr_record_of_loc mx l) e n) as [r1 e1].
  cbn [fst snd] in Hshr. destruct Hshr as [Hr1 He1].
  rewrite <- Hk in Hr1, He1. replace (e + (E' - e)) with E' in He1 by lia.
  subst e1. rewrite Hr1.
  set (M' := mx / 2 ^ (E' - e)).
  assert (HM' : 0 <= M' < 2 ^ 53).
  { unfold M'. split; [apply Z.div_pos; [done|apply pow2_pos; lia]|].
    apply Z.div_lt_upper_bound; [apply pow2_pos; lia|].
    destruct (Zdigits2_bound mx Hmx) as [Hd Hd0].
    eapply Z.lt_le_trans; [exact Hd|].
    rewrite <- pow2_add by lia. apply pow2_le.
    unfold n, fexp, SpecFloat.emin, prec, emax in Hk. lia. }
  set (M'' := round_nearest_even M' (loc_of_shr_record r1)).
  assert (HM'' : M'' = M' \/ M'' = M' + 1) by apply round_nearest_even_cases.
  exists M''. split; [done|].
  destruct (decide (M'' < 2 ^ 53)) as [Hlt|Hge].
  - pose proof (Zdigits2_le M'' 53 ltac:(lia) ltac:(lia)) as Hd.
    assert (Hn2 : fexp prec emax (Zdigits2 M'' + E') - E' <= 0)
      by (unfold fexp, SpecFloat.emin, prec, emax; lia).
    destruct (fexp prec emax (Zdigits2 M'' + E') - E') as [|k|k] eqn:Hn;
      [|lia|]; cbn [shr shr_record_of_loc shr_m].
    + destruct M'' as [|p|p]; [done| |lia].
      replace (E' <=? emax - prec) with true
        by (symmetry; apply Z.leb_le; unfold emax, prec; lia). done.
    + destruct M'' as [|p|p]; [done| |lia].
      replace (E' <=? emax - prec) with true
        by (symmetry; apply Z.leb_le; unfold emax, prec; lia). done.
  - assert (M'' = 2 ^ 53) as -> by lia.
    change (Zdigits2 (2 ^ 53)) with 54.
    replace (fexp prec emax (54 + E') - E') with 1
      by (unfold fexp, SpecFloat.emin, prec, emax; lia).
    cbn [shr shr_record_of_loc SpecFloat.iter_pos].
    change (shr_m (shr_1 (Build_shr_record (2 ^ 53) false false))) with (2 ^ 52).
    change (2 ^ 52) with (Z.pos 4503599627370496).
    cbv iota beta.
    replace (E' + 1 <=? emax - prec) with true
      by (symmetry; apply Z.leb_le; unfold emax, prec; lia).
    split; [done|]. cbn [val].
    replace (E' + 1 + 1074) with (Z.succ (E' + 1074)) by lia.
    rewrite Z.pow_succ_r by lia. lia.
Qed.

Lemma val_lt_mant m e T :
  -1074 <= e -> -1074 <= T -> 0 < m ->
  m * 2 ^ (e + 1074) < 2 ^ (T + 1074) ->
  e < T /\ m < 2 ^ (T - e).
Proof.
  intros He HT Hm Hlt.
  pose proof (pow2_pos (e + 1074) ltac:(lia)) as HP.
  assert (e < T) as HeT.
  { destruct (Z.lt_ge_cases e T) as [|Hge]; [done|].
    pose proof (pow2_le (T + 1074) (e + 1074) ltac:(lia)).
    assert (1 * 2 ^ (e + 1074) <= m * 2 ^ (e + 1074))
      by (apply Z.mul_le_mono_nonneg_r; lia).
    lia. }
  split; [done|].
  replace (T + 1074) with (T - e + (e + 1074)) in Hlt by lia.
  rewrite (pow2_add (T - e) (e + 1074)) in Hlt by lia.
  by apply Z.mul_lt_mono_pos_r in Hlt.
Qed.

(** The rounded value is within one unit of the working exponent, which
    is at most [2^(T-53)] for a value below [2^T]. *)
Lemma round_bracket mx e l T :
  0 <= mx -> -1074 <= e -> mx < 2 ^ (T - e) -> e <= T - 53 ->
  -1021 <= T <= 1023 ->
  let r := binary_round_aux prec emax false mx e l in
  nonneg_finite r = true /\
  val r <= mx * 2 ^ (e + 1074) + 2 ^ (T + 1021) /\
  (mx + 1) * 2 ^ (e + 1074) <= val r + 2 ^ (T + 1021).
Proof.
  intros Hmx He Hlt HeT HT r.
  pose proof (Zdigits2_le mx (T - e) ltac:(lia) ltac:(lia)) as Hd.
  assert (HE' : Z.max e (fexp prec emax (Zdigits2 mx + e)) <= T - 53)
    by (unfold fexp, SpecFloat.emin, prec, emax; lia).
  destruct (binary_round_aux_cut mx e l Hmx He ltac:(lia)) as (M & HM & Hnn & Hval).
  fold r in Hnn, Hval. split; [done|]. rewrite Hval.
  set (E' := Z.max e (fexp prec emax (Zdigits2 mx + e))) in *.
  assert (Hk : 0 <= E' - e) by (unfold E'; lia).
  replace (E' + 1074) with (E' - e + (e + 1074)) by lia.
  rewrite pow2_add by lia.
  pose proof (pow2_pos (E' - e) Hk) as HK.
  pose proof (pow2_pos (e + 1074) ltac:(lia)) as HP.
  assert (HU : 2 ^ (E' - e) * 2 ^ (e + 1074) <= 2 ^ (T + 1021)).
  { rewrite <- pow2_add by lia. apply pow2_le. lia. }
  pose proof (Z.mul_div_le mx _ HK) as Hlo.
  pose proof (Z.mul_succ_div_gt mx _ HK) as Hhi.
  set (K := 2 ^ (E' - e)) in *. set (P := 2 ^ (e + 1074)) in *.
  set (M' := mx / K) in *. clearbody K P M'.
  destruct HM as [-> | ->]; nia.
Qed.

Lemma iter_xO_val m k : Z.pos (Pos.iter xO m k) = Z.pos m * 2 ^ Z.pos k.
Proof.
  induction k as [|k IH] using Pos.peano_ind; [simpl; lia|].
  rewrite Pos.iter_succ, Pos2Z.inj_xO, IH, Pos2Z.inj_succ, Z.pow_succ_r by lia.
  lia.
Qed.

Lemma shl_align_spec mx ex ex' :
  snd (shl_align mx ex ex') = Z.min ex ex' /\
  Z.pos (fst (shl_align mx ex ex')) = Z.pos mx * 2 ^ (ex - Z.min ex ex').
Proof.
  unfold shl_align. destruct (ex' - ex) as [|d|d] eqn:Hd; cbn [fst snd].
  - rewrite Z.min_l by lia. rewrite Z.sub_diag. change (2 ^ 0) with 1. lia.
  - rewrite Z.min_l by lia. rewrite Z.sub_diag. change (2 ^ 0) with 1. lia.
  - rewrite Z.min_r by lia. rewrite iter_xO_val.
    replace (ex - ex') with (Z.pos d) by lia. done.
Qed.

Lemma shl_align_digits mx ex ex' :
  Z.pos (digits2_pos (fst (shl_align mx ex ex'))) =
  Z.pos (digits2_pos mx) + (ex - Z.min ex ex').
Proof.
  unfold shl_align. destruct (ex' - ex) as [|d|d] eqn:Hd; cbn [fst snd].
  - rewrite Z.min_l by lia. lia.
  - rewrite Z.min_l by lia. lia.
  - rewrite Z.min_r by lia. rewrite digits2_iter_xO. lia.
Qed.

Lemma binary_round_bracket p ez T :
  -1074 <= ez -> Z.pos p * 2 ^ (ez + 1074) < 2 ^ (T + 1074) ->
  -1021 <= T <= 1023 ->
  let r := binary_round prec emax false p ez in
  nonneg_finite r = true /\
  val r <= Z.pos p * 2 ^ (ez + 1074) + 2 ^ (T + 1021) /\
  Z.pos p * 2 ^ (ez + 1074) <= val r + 2 ^ (T + 1021).
Proof.
  intros Hez Hlt HT r. subst r. unfold binary_round.
  destruct (val_lt_mant (Z.pos p) ez T Hez ltac:(lia) ltac:(lia) Hlt) as [HeT Hp].
  pose proof (Zdigits2_le (Z.pos p) (T - ez) ltac:(lia) ltac:(lia)) as Hd.
  cbn [Zdigits2] in Hd.
  set (ex' := fexp prec emax (Z.pos (digits2_pos p) + ez)).
  assert (Hex' : -1074 <= ex' <= T - 53)
    by (unfold ex', fexp, SpecFloat.emin, prec, emax; lia).
  destruct (shl_align_spec p ez ex') as [Hsnd Hfst].
  destruct (shl_align p ez ex') as [mz ez']. cbn [fst snd] in Hsnd, Hfst.
  assert (Hsame : Z.pos mz * 2 ^ (ez' + 1074) = Z.pos p * 2 ^ (ez + 1074)).
  { rewrite Hfst, <- Hsnd, <- Z.mul_assoc, <- pow2_add by lia.
    f_equal. f_equal. lia. }
  rewrite <- Hsame in Hlt |- *.
  destruct (val_lt_mant (Z.pos mz) ez' T ltac:(lia) ltac:(lia) ltac:(lia) Hlt) as [_ Hmz].
  destruct (round_bracket (Z.pos mz) ez' loc_Exact T) as (Hnn & Hup & Hlo);
    [lia..|].
  split; [done|]. split; [done|].
  pose proof (pow2_pos (ez' + 1074) ltac:(lia)). lia.
Qed.

Lemma SFabs_binary_round_aux s mx e l :
  SFabs (binary_round_aux prec emax s mx e l) =
  binary_round_aux prec emax false mx e l.
Proof.
  unfold binary_round_aux. destruct (shr_fexp _ _ _ _ _) as [r1 e1].
  destruct (shr_fexp _ _ _ _ _) as [r2 e2].
  destruct (shr_m r2); [done| |done]. by destruct (e2 <=? emax - prec).
Qed.

Lemma SFabs_binary_round s p e :
  SFabs (binary_round prec emax s p e) = binary_round prec emax false p e.
Proof.
  unfold binary_round. destruct (shl_align _ _ _).
  apply SFabs_binary_round_aux.
Qed.

Lemma SFadd_bracket ma ea mb eb T :
  -1074 <= ea -> -1074 <= eb -> -1021 <= T <= 1023 ->
  let x := S754_finite false ma ea in
  let y := S754_finite false mb eb in
  val x + val y < 2 ^ (T + 1074) ->
  nonneg_finite (SFadd prec emax x y) = true /\
  val (SFadd prec emax x y) <= val x + val y + 2 ^ (T + 1021) /\
  val x + val y <= val (SFadd prec emax x y) + 2 ^ (T + 1021).
Proof.
  intros Hea Heb HT x y Hlt. subst x y. cbn [val] in *. unfold SFadd.
  set (ez := Z.min ea eb).
  destruct (shl_align_spec ma ea ez) as [_ Ha].
  destruct (shl_align_spec mb eb ez) as [_ Hb].
  replace (Z.min ea ez) with ez in Ha by (unfold ez; lia).
  replace (Z.min eb ez) with ez in Hb by (unfold ez; lia).
  cbn [cond_Zopp].
  set (A := fst (shl_align ma ea ez)) in *.
  set (B := fst (shl_align mb eb ez)) in *.
  change (Z.pos A + Z.pos B) with (Z.pos (A + B)). cbn [binary_normalize].
  assert (Hsum : Z.pos (A + B) * 2 ^ (ez + 1074) =
                 Z.pos ma * 2 ^ (ea + 1074) + Z.pos mb * 2 ^ (eb + 1074)).
  { rewrite Pos2Z.inj_add, Ha, Hb, Z.mul_add_distr_r.
    rewrite <- !Z.mul_assoc, <- !pow2_add by (unfold ez; lia).
    f_equal; f_equal; f_equal; lia. }
  rewrite <- Hsum in *.
  apply binary_round_bracket; [unfold ez; lia|done|done].
Qed.

Lemma SFsub_bracket ma ea mb eb T :
  -1074 <= ea -> -1074 <= eb -> -1021 <= T <= 1023 ->
  let x := S754_finite false ma ea in
  let y := S754_finite false mb eb in
  val x < 2 ^ (T + 1074) -> val y < 2 ^ (T + 1074) ->
  nonneg_finite (SFabs (SFsub prec emax x y)) = true /\
  val (SFabs (SFsub prec emax x y)) <= Z.abs (val x - val y) + 2 ^ (T + 1021).
Proof.
  intros Hea Heb HT x y Hx Hy. subst x y. cbn [val] in *. unfold SFsub.
  set (ez := Z.min ea eb).
  destruct (shl_align_spec ma ea ez) as [_ Ha].
  destruct (shl_align_spec mb eb ez) as [_ Hb].
  replace (Z.min ea ez) with ez in Ha by (unfold ez; lia).
  replace (Z.min eb ez) with ez in Hb by (unfold ez; lia).
  cbn [cond_Zopp].
  set (A := fst (shl_align ma ea ez)) in *.
  set (B := fst (shl_align mb eb ez)) in *.
  assert (Hdiff : (Z.pos A - Z.pos B) * 2 ^ (ez + 1074) =
                 Z.pos ma * 2 ^ (ea + 1074) - Z.pos mb * 2 ^ (eb + 1074)).
  { rewrite Ha, Hb, Z.mul_sub_distr_r.
    rewrite <- !Z.mul_assoc, <- !pow2_add by (unfold ez; lia).
    f_equal; f_equal; f_equal; lia. }
  pose proof (pow2_pos (ez + 1074) ltac:(unfold ez; lia)) as HP.
  pose proof (pow2_pos (T + 1021) ltac:(lia)) as HU.
  rewrite <- Hdiff.
  destruct (Z.pos A - Z.pos B) as [|p|p] eqn:Hd; cbn [binary_normalize].
  - cbn. lia.
  - destruct (binary_round_bracket p ez T) as (Hnn & Hup & _);
      [unfold ez; lia|nia|done|].
    rewrite SFabs_binary_round. split; [done|].
    rewrite Z.abs_eq by nia. done.
  - destruct (binary_round_bracket p ez T) as (Hnn & Hup & _);
      [unfold ez; lia| |done|].
    { assert (Z.pos p * 2 ^ (ez + 1074) =
              Z.pos mb * 2 ^ (eb + 1074) - Z.pos ma * 2 ^ (ea + 1074)) by nia.
      pose proof (pow2_pos (ea + 1074) ltac:(lia)). nia. }
    rewrite SFabs_binary_round. split; [done|].
    rewrite Z.abs_neq by nia. nia.
Qed.

(** An [int] below [2^53] converts to a double without rounding. *)
Lemma Prim2SF_double_of_Z n :
  1 <= n < 2 ^ 53 ->
  exists mn en, Prim2SF (double_of_Z n) = S754_finite false mn en /\
    -52 <= en <= 0 /\ Z.pos mn = n * 2 ^ (- en) /\
    Z.pos (digits2_pos mn) = 53.
Proof.
  intros Hn. destruct n as [|p|p]; [lia| |lia].
  pose proof (Zdigits2_le (Z.pos p) 53 ltac:(lia) ltac:(lia)) as Hd.
  cbn [Zdigits2] in Hd.
  unfold double_of_Z. cbn [binary_normalize]. unfold binary_round.
  set (ex' := fexp prec emax (Z.pos (digits2_pos p) + 0)).
  assert (Hex' : ex' = Z.pos (digits2_pos p) - 53)
    by (unfold ex', fexp, SpecFloat.emin, prec, emax; lia).
  destruct (shl_align_spec p 0 ex') as [Hsnd Hfst].
  pose proof (shl_align_digits p 0 ex') as Hdig.
  destruct (shl_align p 0 ex') as [mz ez]. cbn [fst snd] in Hsnd, Hfst, Hdig.
  rewrite <- Hsnd in Hfst, Hdig.
  assert (Hv : valid_binary (S754_finite false mz ez) = true).
  { cbn [valid_binary]. unfold bounded, canonical_mantissa.
    apply andb_true_intro. split; [apply Z.eqb_eq | apply Z.leb_le]; fexp_lia. }
  rewrite binary_round_aux_canonical by done.
  rewrite Prim2SF_SF2Prim by done.
  exists mz, ez. split; [done|]. split; [lia|]. split; [|lia].
  rewrite Hfst. reflexivity.
Qed.

Lemma SFdiv_bracket mx ex mn en n T :
  -1074 <= ex -> -52 <= en <= 0 -> 1 <= n -> Z.pos mn = n * 2 ^ (- en) ->
  Z.pos (digits2_pos mn) = 53 ->
  -1021 <= T <= 1023 ->
  let x := S754_finite false mx ex in
  let q := SFdiv prec emax x (S754_finite false mn en) in
  val x < 2 ^ (T + 1074) ->
  nonneg_finite q = true /\
  n * val q <= val x + n * 2 ^ (T + 1021) /\
  val x <= n * val q + n * 2 ^ (T + 1021).
Proof.
  intros Hex Hen Hn Hmn Hdig HT x q Hlt. subst x q. cbn [val] in *.
  unfold SFdiv, SFdiv_core_binary. cbn [xorb Zdigits2]. rewrite Hdig.
  destruct (val_lt_mant (Z.pos mx) ex T Hex ltac:(lia) ltac:(lia) Hlt)
    as [HexT Hmx].
  pose proof (Zdigits2_le (Z.pos mx) (T - ex) ltac:(lia) ltac:(lia)) as Hd.
  cbn [Zdigits2] in Hd.
  set (e' := Z.min (fexp prec emax (Z.pos (digits2_pos mx) + ex - (53 + en)))
                   (ex - en)).
  assert (He' : -1074 <= e' <= T - 53 /\ e' <= ex - en)
    by (unfold e', fexp, SpecFloat.emin, prec, emax; lia).
  set (s := ex - en - e').
  assert (Hs : 0 <= s) by (unfold s; lia).
  set (m' := match s with Z.pos _ => Z.shiftl (Z.pos mx) s | 0 => Z.pos mx
             | Z.neg _ => 0 end).
  assert (Hm' : m' = Z.pos mx * 2 ^ s).
  { unfold m'. destruct s as [|k|k]; [change (2 ^ 0) with 1; lia| |lia].
    by rewrite Z.shiftl_mul_pow2 by lia. }
  clearbody m'.
  pose proof (Z.div_eucl_eq m' (Z.pos mn) ltac:(lia)) as Heq.
  pose proof (Z.mod_pos_bound m' (Z.pos mn) ltac:(lia)) as Hr.
  unfold Z.modulo in Hr.
  destruct (Z.div_eucl m' (Z.pos mn)) as [q0 r].
  pose proof (pow2_pos (- en) ltac:(lia)) as HJ.
  pose proof (pow2_pos s Hs) as HS.
  pose proof (pow2_pos (e' + 1074) ltac:(lia)) as HP'.
  pose proof (pow2_pos (ex + 1074) ltac:(lia)) as HPx.
  pose proof (pow2_pos (T - e') ltac:(lia)) as HQ.
  assert (Hscale : 2 ^ s * 2 ^ (e' + 1074) = 2 ^ (- en) * 2 ^ (ex + 1074)).
  { rewrite <- !pow2_add by lia. f_equal. unfold s. lia. }
  assert (Hscale2 : 2 ^ (T - ex) * 2 ^ s = 2 ^ (- en) * 2 ^ (T - e')).
  { rewrite <- !pow2_add by lia. f_equal. unfold s. lia. }
  assert (Hq0 : 0 <= q0) by nia.
  assert (Hq0lt : q0 < 2 ^ (T - e')).
  { assert (Z.pos mn * q0 < Z.pos mn * 2 ^ (T - e')); [|nia].
    assert (Z.pos mx * 2 ^ s < 2 ^ (T - ex) * 2 ^ s) by nia.
    assert (2 ^ (- en) * 2 ^ (T - e') <= Z.pos mn * 2 ^ (T - e')) by nia.
    lia. }
  destruct (round_bracket q0 e' (new_location (Z.pos mn) r) T)
    as (Hnn & Hup & Hlo); [lia..|].
  set (vq := val (binary_round_aux prec emax false q0 e'
                    (new_location (Z.pos mn) r))) in *.
  clearbody vq. split; [done|].
  set (J := 2 ^ (- en)) in *. set (Sh := 2 ^ s) in *.
  set (P' := 2 ^ (e' + 1074)) in *. set (Px := 2 ^ (ex + 1074)) in *.
  set (U := 2 ^ (T + 1021)) in *.
  assert (Hbelow : n * (q0 * P') <= Z.pos mx * Px).
  { assert (J * (n * (q0 * P')) <= J * (Z.pos mx * Px)); [|nia].
    replace (J * (n * (q0 * P'))) with (Z.pos mn * q0 * P')
      by (rewrite Hmn; ring).
    replace (J * (Z.pos mx * Px)) with (Z.pos mx * Sh * P')
      by (rewrite <- Z.mul_assoc, Hscale; ring).
    apply Z.mul_le_mono_nonneg_r; lia. }
  assert (Habove : Z.pos mx * Px < n * ((q0 + 1) * P')).
  { assert (J * (Z.pos mx * Px) < J * (n * ((q0 + 1) * P'))); [|nia].
    replace (J * (n * ((q0 + 1) * P'))) with (Z.pos mn * (q0 + 1) * P')
      by (rewrite Hmn; ring).
    replace (J * (Z.pos mx * Px)) with (Z.pos mx * Sh * P')
      by (rewrite <- Z.mul_assoc, Hscale; ring).
    apply Z.mul_lt_mono_pos_r; lia. }
  clearbody J Sh P' Px U. nia.
Qed.

Lemma val_lt_canonical s1 m1 e1 s2 m2 e2 :
  valid_binary (S754_finite s1 m1 e1) = true ->
  valid_binary (S754_finite s2 m2 e2) = true ->
  e1 < e2 ->
  Z.pos m1 * 2 ^ (e1 + 1074) < Z.pos m2 * 2 ^ (e2 + 1074).
Proof.
  intros (He1 & Hd1 & _)%valid_finite (He2 & Hd2 & Hc2)%valid_finite Hlt.
  assert (Hd : Z.pos (digits2_pos m2) = 53) by lia.
  pose proof (digits2_pos_bounds m1) as [_ H1].
  pose proof (digits2_pos_bounds m2) as [H2 _]. rewrite Hd in H2.
  assert (Z.pos m1 < 2 ^ 53).
  { eapply Z.lt_le_trans; [exact H1|]. apply pow2_le. lia. }
  pose proof (pow2_pos (e1 + 1074) ltac:(lia)) as HP1.
  assert (Hstep : 2 ^ 53 * 2 ^ (e1 + 1074) <= 2 ^ (53 - 1) * 2 ^ (e2 + 1074)).
  { rewrite <- !pow2_add by lia. apply pow2_le. lia. }
  pose proof (pow2_pos (e2 + 1074) ltac:(lia)) as HP2.
  nia.
Qed.

Lemma SFltb_val x y :
  nonneg_finite x = true -> nonneg_finite y = true ->
  valid_binary x = true -> valid_binary y = true ->
  SFltb x y = true <-> val x < val y.
Proof.
  intros Hx Hy Hvx Hvy.
  destruct x as [[]| | |[] m1 e1], y as [[]| | |[] m2 e2]; try done.
  - pose proof Hvy as (He & _)%valid_finite.
    pose proof (pow2_pos (e2 + 1074) ltac:(lia)). cbn. split; [lia|done].
  - pose proof Hvx as (He & _)%valid_finite.
    pose proof (pow2_pos (e1 + 1074) ltac:(lia)). cbn. split; [done|lia].
  - unfold SFltb, SFcompare. cbn [val].
    pose proof Hvx as (He1 & _)%valid_finite.
    pose proof (pow2_pos (e1 + 1074) ltac:(lia)) as HP.
    destruct (Z.compare_spec e1 e2) as [->|Hlt|Hgt].
    + change (Pos.compare_cont Eq m1 m2) with (Pos.compare m1 m2).
      destruct (Pos.compare_spec m1 m2) as [->|H|H]; split; try done; try nia.
    + split; [|done]. intros _. by eapply val_lt_canonical.
    + split; [done|]. intros H.
      pose proof (val_lt_canonical _ _ _ _ _ _ Hvy Hvx Hgt). lia.
Qed.

Lemma nonneg_cases x :
  nonneg x ->
  Prim2SF x = S754_zero false \/
  exists m e, Prim2SF x = S754_finite false m e /\ -1074 <= e.
Proof.
  unfold nonneg. intros Hx. pose proof (Prim2SF_valid x) as Hv.
  destruct (Prim2SF x) as [[]| | |[] m e]; try discriminate; [by left|right].
  exists m, e. split; [done|]. apply valid_finite in Hv. lia.
Qed.

Lemma fval_nonneg x : 0 <= fval x.
Proof.
  unfold fval. destruct (Prim2SF x) as [| | |s m e]; cbn; lia.
Qed.

Lemma add_bracket x y T :
  nonneg x -> nonneg y -> -1021 <= T <= 1023 ->
  fval x + fval y < 2 ^ (T + 1074) ->
  nonneg (x + y) /\
  fval (x + y) <= fval x + fval y + 2 ^ (T + 1021) /\
  fval x + fval y <= fval (x + y) + 2 ^ (T + 1021).
Proof.
  intros Hx Hy HT. unfold nonneg, fval. rewrite add_spec.
  pose proof (pow2_pos (T + 1021) ltac:(lia)) as HU.
  destruct (nonneg_cases x Hx) as [-> | (ma & ea & -> & Hea)],
           (nonneg_cases y Hy) as [-> | (mb & eb & -> & Heb)].
  - cbn. lia.
  - cbn. lia.
  - cbn. lia.
  - by apply SFadd_bracket.
Qed.

Lemma div_bracket x n T :
  nonneg x -> 1 <= n < 2 ^ 53 -> -1021 <= T <= 1023 ->
  fval x < 2 ^ (T + 1074) ->
  nonneg (x / double_of_Z n) /\
  n * fval (x / double_of_Z n) <= fval x + n * 2 ^ (T + 1021) /\
  fval x <= n * fval (x / double_of_Z n) + n * 2 ^ (T + 1021).
Proof.
  intros Hx Hn HT. unfold nonneg, fval. rewrite div_spec.
  pose proof (pow2_pos (T + 1021) ltac:(lia)) as HU.
  destruct (Prim2SF_double_of_Z n Hn) as (mn & en & -> & Hen & Hmn & Hdig).
  destruct (nonneg_cases x Hx) as [-> | (ma & ea & -> & Hea)].
  - cbn. nia.
  - apply (SFdiv_bracket ma ea mn en n T); lia || done.
Qed.

Lemma sub_bracket x y T :
  nonneg x -> nonneg y -> -1021 <= T <= 1023 ->
  fval x < 2 ^ (T + 1074) -> fval y < 2 ^ (T + 1074) ->
  nonneg (abs (x - y)) /\
  fval (abs (x - y)) <= Z.abs (fval x - fval y) + 2 ^ (T + 1021).
Proof.
  intros Hx Hy HT. unfold nonneg, fval. rewrite abs_spec, sub_spec.
  pose proof (pow2_pos (T + 1021) ltac:(lia)) as HU.
  destruct (nonneg_cases x Hx) as [-> | (ma & ea & -> & Hea)],
           (nonneg_cases y Hy) as [-> | (mb & eb & -> & Heb)].
  - cbn. lia.
  - cbn. intros _ _. split; [done|].
    pose proof (pow2_pos (eb + 1074) ltac:(lia)). nia.
  - cbn. intros _ _. split; [done|].
    pose proof (pow2_pos (ea + 1074) ltac:(lia)). nia.
  - by apply SFsub_bracket.
Qed.

Lemma Prim2SF_pow2 E :
  -1022 <= E <= 1023 ->
  Prim2SF (pow2 E) = S754_finite false 4503599627370496 (E - 52).
Proof.
  intros HE. unfold pow2. rewrite Z_ldexp_spec.
  change (Prim2SF 1) with (S754_finite false 4503599627370496 (-52)).
  unfold SFldexp, binary_round, shl_align.
  change (Z.pos (digits2_pos 4503599627370496)) with 53.
  replace (fexp prec emax (53 + (-52 + E)) - (-52 + E)) with 0 by fexp_lia.
  cbv iota beta. replace (-52 + E) with (E - 52) by lia.
  apply binary_round_aux_canonical.
  cbn [valid_binary]. unfold bounded, canonical_mantissa.
  change (Z.pos (digits2_pos 4503599627370496)) with 53.
  apply andb_true_intro. split; [apply Z.eqb_eq | apply Z.leb_le]; fexp_lia.
Qed.

Lemma ltb_pow2 x E :
  nonneg x -> -1022 <= E <= 1023 ->
  (x <? pow2 E)%float = true -> fval x < 2 ^ (E + 1074).
Proof.
  intros Hx HE. rewrite ltb_spec. intros Hlt.
  pose proof (Prim2SF_valid (pow2 E)) as Hv.
  rewrite Prim2SF_pow2 in Hlt, Hv by done.
  apply SFltb_val in Hlt; [|done|done|apply Prim2SF_valid|done].
  unfold fval. cbn [val] in Hlt.
  replace (E + 1074) with (52 + (E - 52 + 1074)) by lia.
  rewrite pow2_add by lia. exact Hlt.
Qed.

(** Adding [k] more copies of [q] to a running sum of [j] copies: each
    addition adds at most one rounding error [2^(T-53)]. *)
Lemma fold_add_bracket q T k :
  nonneg q -> -1021 <= T <= 1023 ->
  forall acc j, nonneg acc -> 0 <= j ->
  fval acc <= j * fval q + j * 2 ^ (T + 1021) ->
  j * fval q <= fval acc + j * 2 ^ (T + 1021) ->
  (j + Z.of_nat k) * (fval q + 2 ^ (T + 1021)) < 2 ^ (T + 1074) ->
  let s := fold_left PrimFloat.add (replicate k q) acc in
  nonneg s /\
  fval s <= (j + Z.of_nat k) * fval q + (j + Z.of_nat k) * 2 ^ (T + 1021) /\
  (j + Z.of_nat k) * fval q <= fval s + (j + Z.of_nat k) * 2 ^ (T + 1021).
Proof.
  intros Hq HT. pose proof (pow2_pos (T + 1021) ltac:(lia)) as HU.
  pose proof (fval_nonneg q) as Hq0.
  set (U := 2 ^ (T + 1021)) in *.
  induction k as [|k IH]; intros acc j Hacc Hj Hup Hlo Hroom s.
  - subst s. cbn [replicate fold_left]. rewrite Z.add_0_r. done.
  - subst s. cbn [replicate fold_left].
    destruct (add_bracket acc q T Hacc Hq HT) as (Hnn & Hup' & Hlo').
    { fold U. nia. }
    fold U in Hup', Hlo'.
    replace (j + Z.of_nat (S k)) with (j + 1 + Z.of_nat k) in * by lia.
    apply IH; [done|lia|nia|nia|done].
Qed.

Lemma pow2_le_inv a b : 0 <= a -> 0 <= b -> 2 ^ a <= 2 ^ b -> a <= b.
Proof.
  intros Ha Hb H. destruct (Z.le_gt_cases a b) as [|Hgt]; [done|].
  assert (2 ^ b < 2 ^ a) by (apply Z.pow_lt_mono_r; lia). lia.
Qed.

(** The shares of a divider with [n] outputs add up to the input within
    the tolerance, when [n] times the input stays below [2^44]. *)
Lemma total_close (m : double) (n : nat) (E : Z) :
  positive_finite m = true -> (1 <= n)%nat -> 0 <= E ->
  Z.of_nat n * 2 ^ E <= 2 ^ 44 ->
  (m <? pow2 E)%float = true ->
  close_to (total (replicate n (m / double_of_Z (Z.of_nat n))%float)) m = true.
Proof.
  intros Hpos Hn HE Hprod Hlt.
  pose proof (pow2_pos E HE) as HE0.
  assert (HN : 1 <= Z.of_nat n <= 2 ^ 44) by nia.
  assert (HE44 : E <= 44).
  { apply pow2_le_inv; [done|lia|]. nia. }
  assert (Hm : nonneg m).
  { destruct (positive_finite_spec m Hpos) as (mx & ex & Hx).
    unfold nonneg. by rewrite Hx. }
  pose proof (ltb_pow2 m E Hm ltac:(lia) Hlt) as Hmlt.
  set (N := Z.of_nat n) in *.
  destruct (div_bracket m N E Hm ltac:(lia) ltac:(lia) Hmlt)
    as (Hq & Hqup & Hqlo).
  set (q := (m / double_of_Z N)%float) in *.
  pose proof (fval_nonneg q) as Hq0. pose proof (fval_nonneg m) as Hm0.
  assert (Hpow : exists C, 0 < C /\
            2 ^ (E + 1021) = 2 ^ E * (2 ^ 6 * C) /\
            val (Prim2SF POSSIBLE_ERROR) = 5764607394185216 * C).
  { exists (2 ^ 1015). split; [by apply pow2_pos|].
    replace (E + 1021) with (E + (6 + 1015)) by lia.
    rewrite (pow2_add E), (pow2_add 6) by lia. done. }
  destruct Hpow as (C & HC & HU & HPE).
  assert (H2 : 2 ^ (E + 1 + 1021) = 2 * 2 ^ (E + 1021)).
  { replace (E + 1 + 1021) with (Z.succ (E + 1021)) by lia.
    apply Z.pow_succ_r. lia. }
  assert (H53 : 2 ^ (E + 1074) = 2 ^ 53 * 2 ^ (E + 1021)).
  { rewrite <- pow2_add by lia. f_equal. lia. }
  assert (H54 : 2 ^ (E + 1 + 1074) = 2 ^ 54 * 2 ^ (E + 1021)).
  { rewrite <- pow2_add by lia. f_equal. lia. }
  assert (HNU : N * 2 ^ (E + 1021) <= 2 ^ 50 * C).
  { rewrite HU. replace (N * (2 ^ E * (2 ^ 6 * C))) with (N * 2 ^ E * (2 ^ 6 * C))
      by ring.
    replace (2 ^ 50 * C) with (2 ^ 44 * (2 ^ 6 * C))
      by (change (2 ^ 50) with (2 ^ 44 * 2 ^ 6); ring).
    apply Z.mul_le_mono_nonneg_r; lia. }
  pose proof (pow2_pos (E + 1021) ltac:(lia)) as HU0.
  rewrite H53 in Hmlt. clear HU.
  set (U := 2 ^ (E + 1021)) in *.
  assert (HNU' : U <= N * U) by nia.
  assert (HNU'' : N * U <= 2 ^ 44 * U) by nia.
  clearbody U.
  destruct (fold_add_bracket q (E + 1) n Hq ltac:(lia) 0%float 0%Z)
    as (Hs & Hsup & Hslo); [done|lia|..].
  { change (fval 0) with 0. lia. }
  { change (fval 0) with 0. lia. }
  { rewrite Z.add_0_l. fold N. rewrite H2, H54. lia. }
  rewrite Z.add_0_l, H2 in Hsup, Hslo. fold N in Hsup, Hslo.
  change (fold_left PrimFloat.add (replicate n q) 0%float)
    with (total (replicate n q)) in Hs, Hsup, Hslo.
  set (s := total (replicate n q)) in *.
  destruct (sub_bracket s m (E + 1) Hs Hm ltac:(lia)) as (Hd & Hdup).
  { rewrite H54. lia. }
  { rewrite H54. lia. }
  rewrite H2 in Hdup.
  unfold close_to. rewrite ltb_spec.
  apply SFltb_val; [done|done|apply Prim2SF_valid|done|].
  fold (fval (abs (s - m))%float). rewrite HPE. lia.
Qed.

(** ** Mass conservation *)

Lemma flows_constant h v q :
  (forall o, o ∈ v -> flow h o = Some q) ->
  flows h v = Some (replicate (length v) q).
Proof.
  induction v as [|p v IH]; intros Hall; [done|].
  rewrite flows_cons, (Hall p) by set_solver.
  rewrite IH; [done|]. intros o Ho. apply Hall. set_solver.
Qed.

Lemma flows_store_all h v q :
  all_live h v -> flows (store_all q v h) v = Some (replicate (length v) q).
Proof.
  intros Hlive. apply flows_constant. intros o Ho.
  apply store_all_flow; [done|]. by eapply Forall_forall in Hlive.
Qed.

(** One share, or two halves, add up to the whole; two halves of an
    input below [2^-1021] may miss its last bit. *)
Lemma total_shares (m : double) (n : nat) :
  let fs := replicate n (m / double_of_Z (Z.of_nat n))%float in
  positive_finite m = true ->
  (n = 1%nat -> total fs = m /\ close_to (total fs) m = true)
  /\ (n = 2%nat ->
      close_to (total fs) m = true /\
      (halves_exactly m = true -> total fs = m)).
Proof.
  intros fs (mx & ex & Hm)%positive_finite_spec. subst fs. split.
  - intros ->. cbn [replicate].
    change (double_of_Z (Z.of_nat 1)) with 1%float. unfold total. cbn [fold_left].
    rewrite div_one, (add_zero_l _ _ _ Hm).
    split; [done | by eapply sub_self_close].
  - intros ->. cbn [replicate].
    change (double_of_Z (Z.of_nat 2)) with 2%float. unfold total. cbn [fold_left].
    assert (Hexact : -1073 <= ex -> (0 + m / 2 + m / 2)%float = m).
    { intros He. pose proof (Prim2SF_valid m) as Hv. rewrite Hm in Hv.
      pose proof Hv as Hb. apply valid_finite in Hb as (He' & Hd & Hc).
      assert (H0 : (0 + m / 2)%float = (m / 2)%float).
      { apply (add_zero_l _ mx (ex - 1)). rewrite div_spec, Hm.
        change (Prim2SF 2)
          with (S754_finite false (Pos.iter xO 1%positive 52) (-51)).
        unfold SF64div. replace (ex - 1) with (ex - -51 - 52) by lia.
        apply SFdiv_pow2. replace (ex - -51 - 52) with (ex - 1) by lia.
        simpl in *. unfold bounded, canonical_mantissa in *.
        apply andb_true_intro. split; [apply Z.eqb_eq | apply Z.leb_le]; fexp_lia. }
      by rewrite H0, (half_add_half _ _ _ Hm He). }
    split.
    + destruct (Z.le_gt_cases (-1073) ex) as [He|He].
      * rewrite (Hexact He). by eapply sub_self_close.
      * pose proof (Prim2SF_valid m) as Hv. rewrite Hm in Hv.
        apply valid_finite in Hv as (He' & _).
        assert (ex = -1074) as -> by lia. by eapply halves_close_tiny.
    + intros (mx' & ex' & Hm' & He)%halves_exactly_spec.
      rewrite Hm in Hm'. injection Hm' as <- <-. by apply Hexact.
Qed.

(** C4, as stated, fails: a divider with seven outputs and an input of
    1e14 succeeds, and the sum of its outputs misses the input by more
    than [POSSIBLE_ERROR]. *)
Lemma divider_sum_exceeds_tolerance :
  let this := mkDivider (mkDevice [1%nat]
                [2%nat; 3%nat; 4%nat; 5%nat; 6%nat; 7%nat; 8%nat] 1 7) in
  let h : heap :=
    <[1%nat := mkStream 1e14 "s1"]>
    (foldr (fun p h' => <[p := mkStream 0 "s"]> h') ∅
           (outputs (Divider_base this))) in
  positive_finite 1e14 = true /\
  exists h' fs,
    Divider_updateOutputs this h = (Ok tt, h') /\
    flows h' (outputs (Divider_base this)) = Some fs /\
    abs (total fs - 1e14)%float = 0.015625%float /\
    close_to (total fs) 1e14 = false.
Proof.
  intros this h. split; [reflexivity|].
  destruct (Divider_updateOutputs this h) as [r h'] eqn:Hrun.
  vm_compute in Hrun. injection Hrun as <- <-.
  eexists _, _. split; [reflexivity|]. by vm_compute.
Qed.

(** C4, amended. After a successful update of a divider with [n] >= 1
    attached outputs, or of a reactor with all [n] = [outputAmount]
    outputs attached, every output carries the same double, input / n.
    For a positive finite input their sum, added left to right, is
    within [POSSIBLE_ERROR] of the input
    - when [n] is 1 or 2, which covers every reactor, and
    - for every [n], when the input is below a power of two [2^E],
      0 <= [E], with [n * 2^E <= 2^44].
    The sum is the input itself when [n] = 1, and when [n] = 2 and the
    input is at least [2^-1021]. *)
Theorem split_conservation (h : heap) (p : ptr) (m : double) :
  flow h p = Some m ->
  (forall (this : Divider) v,
     inputs (Divider_base this) = p :: v ->
     outputs (Divider_base this) <> [] ->
     all_live h (outputs (Divider_base this)) ->
     let n := length (outputs (Divider_base this)) in
     let fs := replicate n (m / double_of_Z (Z.of_nat n))%float in
     exists h', Divider_updateOutputs this h = (Ok tt, h') /\
       flows h' (outputs (Divider_base this)) = Some fs /\
       (positive_finite m = true ->
          (n = 1%nat -> total fs = m /\ close_to (total fs) m = true) /\
          (n = 2%nat -> close_to (total fs) m = true /\
                        (halves_exactly m = true -> total fs = m)) /\
          (forall E, 0 <= E -> Z.of_nat n * 2 ^ E <= 2 ^ 44 ->
             (m <? pow2 E)%float = true ->
             close_to (total fs) m = true)))
  /\ (forall (this : Reactor),
     Reactor_inv this ->
     inputs (Reactor_base this) = [p] ->
     size (outputs (Reactor_base this)) = outputAmount (Reactor_base this) ->
     all_live h (outputs (Reactor_base this)) ->
     let n := length (outputs (Reactor_base this)) in
     let fs := replicate n (m / double_of_Z (outputAmount (Reactor_base this)))%float in
     exists h', Reactor_updateOutputs this h = (Ok tt, h') /\
       flows h' (outputs (Reactor_base this)) = Some fs /\
       (positive_finite m = true ->
          close_to (total fs) m = true /\
          (n = 1%nat -> total fs = m) /\
          (halves_exactly m = true -> total fs = m))).
Proof.
  intros Hm. split.
  - intros this v Hin Hout Hlive n fs.
    rewrite (Divider_updateOutputs_run _ _ _ _ _ Hin Hout Hm).
    rewrite for_each_setMassFlow by done.
    eexists. split; [done|]. split; [by apply flows_store_all|].
    intros Hpos. destruct (total_shares m n Hpos) as [Hone Htwo].
    split; [exact Hone|]. split; [exact Htwo|].
    intros E HE Hprod Hlt. apply (total_close m n E); try done.
    subst n. destruct (outputs (Divider_base this)); [done|]. simpl. lia.
  - intros this Hinv Hin Hsize Hlive n fs.
    rewrite (Reactor_updateOutputs_wired _ _ _ _ _ Hinv Hin Hm Hsize Hlive).
    eexists. split; [done|]. split; [by apply flows_store_all|].
    assert (Hn : outputAmount (Reactor_base this) = Z.of_nat n)
      by (by rewrite <- Hsize).
    intros Hpos. subst fs. rewrite Hn.
    destruct (total_shares m n Hpos) as [Hone Htwo].
    assert (n = 1%nat \/ n = 2%nat) as [H1 | H2]
      by (destruct Hinv as [_ Hcap]; lia).
    + destruct (Hone H1) as [Ht Hc]. by repeat split.
    + destruct (Htwo H2) as [Hc Ht]. split; [done|]. split; [lia|done].
Qed.

(** Scenarios 4 and 6 of the specification, Divider(2) and Reactor(true)
    with input 10.0; a divider that splits 12.0 over three outputs; and
    a divider that splits 1e12 over seven outputs, whose shares are not
    exact. *)
Lemma split_conservation_witness :
  let h : heap := <[1%nat := mkStream 10 "s1"]>
                  (<[2%nat := mkStream 0 "s2"]>
                  (<[3%nat := mkStream 0 "s3"]> ∅)) in
  let h3 : heap := <[1%nat := mkStream 12 "s1"]>
                   (<[2%nat := mkStream 0 "s2"]>
                   (<[3%nat := mkStream 0 "s3"]>
                   (<[4%nat := mkStream 0 "s4"]> ∅))) in
  let seven := [2%nat; 3%nat; 4%nat; 5%nat; 6%nat; 7%nat; 8%nat] in
  let h7 : heap := <[1%nat := mkStream 1e12 "s1"]>
                   (foldr (fun p h' => <[p := mkStream 0 "s"]> h') ∅ seven) in
  (exists h', Divider_updateOutputs
                (mkDivider (mkDevice [1%nat] [2%nat; 3%nat] 1 2)) h = (Ok tt, h') /\
              flows h' [2%nat; 3%nat] = Some [5; 5]%float /\
              total [5; 5]%float = 10%float) /\
  (exists h', Reactor_updateOutputs
                (mkReactor (mkDevice [1%nat] [2%nat; 3%nat] 1 2)) h = (Ok tt, h') /\
              flows h' [2%nat; 3%nat] = Some [5; 5]%float /\
              close_to (total [5; 5]%float) 10 = true) /\
  (exists h', Divider_updateOutputs
                (mkDivider (mkDevice [1%nat] [2%nat; 3%nat; 4%nat] 1 3)) h3 =
                (Ok tt, h') /\
              flows h' [2%nat; 3%nat; 4%nat] = Some [4; 4; 4]%float /\
              close_to (total [4; 4; 4]%float) 12 = true) /\
  (exists h', Divider_updateOutputs (mkDivider (mkDevice [1%nat] seven 1 7)) h7 =
                (Ok tt, h') /\
              flows h' seven = Some (replicate 7 (1e12 / 7)%float) /\
              close_to (total (replicate 7 (1e12 / 7)%float)) 1e12 = true).
Proof.
  intros h h3 seven h7.
  destruct (split_conservation h 1%nat 10%float eq_refl) as [Hdiv Hrea].
  destruct (split_conservation h3 1%nat 12%float eq_refl) as [Hdiv3 _].
  destruct (split_conservation h7 1%nat 1e12%float eq_refl) as [Hdiv7 _].
  assert (Hlive : all_live h [2%nat; 3%nat]) by (repeat constructor; by eexists).
  assert (Hlive3 : all_live h3 [2%nat; 3%nat; 4%nat])
    by (repeat constructor; by eexists).
  split; [|split; [|split]].
  - destruct (Hdiv (mkDivider (mkDevice [1%nat] [2%nat; 3%nat] 1 2)) [])
      as (h' & Hh' & Hfs & Hsum); [reflexivity | discriminate | exact Hlive |].
    exists h'. split; [exact Hh'|]. split; [exact Hfs|].
    destruct (Hsum eq_refl) as (_ & Htwo & _).
    destruct (Htwo eq_refl) as [_ Ht]. exact (Ht eq_refl).
  - destruct (Hrea (mkReactor (mkDevice [1%nat] [2%nat; 3%nat] 1 2)))
      as (h' & Hh' & Hfs & Hsum);
      [apply (Reactor_new_inv true) | reflexivity | reflexivity | exact Hlive |].
    exists h'. split; [exact Hh'|]. split; [exact Hfs|].
    by destruct (Hsum eq_refl) as [Hc _].
  - destruct (Hdiv3 (mkDivider (mkDevice [1%nat] [2%nat; 3%nat; 4%nat] 1 3)) [])
      as (h' & Hh' & Hfs & Hsum); [reflexivity | discriminate | exact Hlive3 |].
    exists h'. split; [exact Hh'|]. split; [exact Hfs|].
    destruct (Hsum eq_refl) as (_ & _ & Hany).
    apply (Hany 4); [lia | by vm_compute | reflexivity].
  - destruct (Hdiv7 (mkDivider (mkDevice [1%nat] seven 1 7)) [])
      as (h' & Hh' & Hfs & Hsum);
      [reflexivity | discriminate | repeat constructor; by eexists |].
    exists h'. split; [exact Hh'|]. split; [exact Hfs|].
    destruct (Hsum eq_refl) as (_ & _ & Hany).
    apply (Hany 40); [lia | by vm_compute | reflexivity].
Defined.

(** * Further properties of the code *)

(** ** Stream *)

Example to_string_examples :
  to_string 0 = "0" /\ to_string 12 = "12" /\ to_string (-5) = "-5".
Proof. by vm_compute. Qed.

(** X1. What [setMassFlow] stores is what [getMassFlow] returns, and
    likewise [setName] and [getName]; setting one field leaves the other
    field, and every other stream, as they were. *)
Theorem Stream_set_get (h : heap) (p : ptr) (s : Stream) (m : double) (n : string) :
  h !! p = Some s ->
  (exists h', setMassFlow p m h = (Ok tt, h') /\
     getMassFlow p h' = (Ok m, h') /\
     getName p h' = (Ok (name s), h') /\
     forall q, q <> p -> h' !! q = h !! q)
  /\ (exists h', setName p n h = (Ok tt, h') /\
     getName p h' = (Ok n, h') /\
     getMassFlow p h' = (Ok (mass_flow s), h') /\
     forall q, q <> p -> h' !! q = h !! q).
Proof.
  intros Hp. split.
  - unfold setMassFlow, getMassFlow, getName. rewrite Hp.
    eexists. split; [done|]. rewrite lookup_insert_eq.
    repeat split. intros q Hq. by rewrite lookup_insert_ne.
  - unfold setMassFlow, getMassFlow, setName, getName. rewrite Hp.
    eexists. split; [done|]. rewrite lookup_insert_eq.
    repeat split. intros q Hq. by rewrite lookup_insert_ne.
Qed.

Lemma Stream_set_get_witness :
  let h : heap := <[1%nat := Stream_new 1 0]> ∅ in
  exists h', setMassFlow 1%nat 10 h = (Ok tt, h') /\
             getMassFlow 1%nat h' = (Ok 10%float, h') /\
             getName 1%nat h' = (Ok "s1", h').
Proof.
  intros h.
  destruct (Stream_set_get h 1%nat (Stream_new 1 0) 10 "x" eq_refl)
    as [(h' & Hset & Hget & Hname & _) _].
  exists h'. by repeat split.
Defined.

(** X2. A stream built by [Stream(s)] is named "s" followed by the
    decimal form of [s], so that two streams carry the same name only
    when they were built from the same integer. *)
Theorem Stream_new_name_unique (s1 s2 : Z) (g1 g2 : double) :
  name (Stream_new s1 g1) = "s" +:+ to_string s1 /\
  (name (Stream_new s1 g1) = name (Stream_new s2 g2) <-> s1 = s2).
Proof.
  split; [done|]. split; [|by intros ->].
  cbn [name Stream_new]. intros Heq.
  apply (inj (String.app "s")) in Heq. by apply (inj pretty) in Heq.
Qed.

(** ** Wiring *)

Lemma Device_attach_step a d :
  is_int (inputAmount d) -> is_int (outputAmount d) -> within_capacity d ->
  let d' := after (Device_attach a) d in
  within_capacity d' /\
  inputAmount d' = inputAmount d /\ outputAmount d' = outputAmount d /\
  inputs d `prefix_of` inputs d' /\ outputs d `prefix_of` outputs d'.
Proof.
  intros Hi%is_int_bounds Ho%is_int_bounds [Hin Hout].
  pose proof (size_nonneg (inputs d)). pose proof (size_nonneg (outputs d)).
  unfold after, within_capacity.
  destruct a as [s|s]; cbn [Device_attach];
    [unfold Device_addInput | unfold Device_addOutput];
    rewrite to_size_t_small by lia; Z_test;
    cbn [snd push_input push_output inputs outputs inputAmount outputAmount];
    rewrite ?size_app; change (size [s]) with 1;
    repeat split; try lia; try done; by apply prefix_app_r.
Qed.

(** X3. However a device is wired through [Device::addInput] and
    [Device::addOutput], refused calls included, its capacities stay what
    they were, no port list outgrows its capacity, and the streams
    already attached keep their places: calls only ever append. *)
Theorem Device_wire_invariant (calls : list attach) (d : Device) :
  is_int (inputAmount d) -> is_int (outputAmount d) -> within_capacity d ->
  let d' := Device_wire calls d in
  within_capacity d' /\
  inputAmount d' = inputAmount d /\ outputAmount d' = outputAmount d /\
  inputs d `prefix_of` inputs d' /\ outputs d `prefix_of` outputs d'.
Proof.
  revert d. induction calls as [|a calls IH]; intros d Hi Ho Hcap.
  - by cbn.
  - cbn [Device_wire foldl]. fold (Device_wire calls (after (Device_attach a) d)).
    destruct (Device_attach_step a d Hi Ho Hcap) as (Hc1 & Hi1 & Ho1 & Hp1 & Hq1).
    destruct (IH (after (Device_attach a) d)) as (Hc2 & Hi2 & Ho2 & Hp2 & Hq2);
      [by rewrite Hi1 | by rewrite Ho1 | done |].
    cbn zeta. rewrite Hi2, Ho2.
    repeat split; try done; try apply Hc2; by etrans.
Qed.

(** A Reactor(true) offered three outputs and two inputs keeps two and one. *)
Lemma Device_wire_invariant_witness :
  let d := Reactor_base (Reactor_new true) in
  let d' := Device_wire [AddOutput 2%nat; AddInput 1%nat; AddOutput 3%nat;
                         AddOutput 4%nat; AddInput 5%nat] d in
  within_capacity d' /\ inputs d' = [1%nat] /\ outputs d' = [2%nat; 3%nat].
Proof.
  intros d d'.
  destruct (Device_wire_invariant
              [AddOutput 2%nat; AddInput 1%nat; AddOutput 3%nat;
               AddOutput 4%nat; AddInput 5%nat] d) as (Hcap & _).
  - cbv. split; discriminate.
  - cbv. split; discriminate.
  - split; cbv; discriminate.
  - split; [exact Hcap|]. split; reflexivity.
Defined.

Lemma Mixer_attach_step a this :
  Mixer_inv this -> within_capacity (Mixer_base this) ->
  let this' := after (Mixer_attach a) this in
  Mixer_inv this' /\ within_capacity (Mixer_base this') /\
  _inputs_count this' = _inputs_count this /\
  inputs (Mixer_base this) `prefix_of` inputs (Mixer_base this') /\
  outputs (Mixer_base this) `prefix_of` outputs (Mixer_base this').
Proof.
  intros Hinv [Hin Hout]. pose proof Hinv as (Hint%is_int_bounds & Hcnt & Hmo).
  pose proof (size_nonneg (inputs (Mixer_base this))).
  pose proof (size_nonneg (outputs (Mixer_base this))).
  unfold after, within_capacity.
  destruct a as [s|s]; cbn [Mixer_attach];
    [unfold Mixer_addInput; rewrite to_size_t_small by lia
    |unfold Mixer_addOutput; change (to_size_t MIXER_OUTPUTS) with MIXER_OUTPUTS];
    Z_test;
    cbn [snd Mixer_base _inputs_count push_input push_output
         inputs outputs inputAmount outputAmount];
    rewrite ?size_app; change (size [s]) with 1;
    repeat split; try lia; try done; try apply Hinv; by apply prefix_app_r.
Qed.

(** X4. However a mixer is wired through its own [addInput] and
    [addOutput], it never holds more than [_inputs_count] inputs nor more
    than one output, and the streams already attached keep their places. *)
Theorem Mixer_wire_invariant (calls : list attach) (this : Mixer) :
  Mixer_inv this -> within_capacity (Mixer_base this) ->
  let this' := Mixer_wire calls this in
  size (inputs (Mixer_base this')) <= _inputs_count this /\
  size (outputs (Mixer_base this')) <= 1 /\
  inputs (Mixer_base this) `prefix_of` inputs (Mixer_base this') /\
  outputs (Mixer_base this) `prefix_of` outputs (Mixer_base this').
Proof.
  intros Hinv Hcap.
  assert (Hgen : Mixer_inv (Mixer_wire calls this) /\
    within_capacity (Mixer_base (Mixer_wire calls this)) /\
    _inputs_count (Mixer_wire calls this) = _inputs_count this /\
    inputs (Mixer_base this) `prefix_of` inputs (Mixer_base (Mixer_wire calls this)) /\
    outputs (Mixer_base this) `prefix_of` outputs (Mixer_base (Mixer_wire calls this))).
  { revert this Hinv Hcap. induction calls as [|a calls IH]; intros this Hinv Hcap.
    - by cbn.
    - cbn [Mixer_wire foldl]. fold (Mixer_wire calls (after (Mixer_attach a) this)).
      destruct (Mixer_attach_step a this Hinv Hcap) as (Hv1 & Hc1 & Hn1 & Hp1 & Hq1).
      destruct (IH _ Hv1 Hc1) as (Hv2 & Hc2 & Hn2 & Hp2 & Hq2).
      rewrite Hn2, Hn1. repeat split; try done; try apply Hv2; try apply Hc2;
        by etrans. }
  destruct Hgen as ((_ & Hcnt & Hmo) & [Hi Ho] & Hn & Hp & Hq).
  cbn zeta. rewrite Hcnt, Hn in Hi. rewrite Hmo in Ho. done.
Qed.

(** The wiring of the mixer tests, with one input and one output too many. *)
Lemma Mixer_wire_invariant_witness :
  let this := Mixer_wire [AddInput 1%nat; AddInput 2%nat; AddOutput 3%nat;
                          AddOutput 4%nat; AddInput 5%nat] (Mixer_new 2) in
  size (inputs (Mixer_base this)) <= 2 /\
  inputs (Mixer_base this) = [1%nat; 2%nat] /\
  outputs (Mixer_base this) = [3%nat].
Proof.
  intros this.
  destruct (Mixer_wire_invariant
              [AddInput 1%nat; AddInput 2%nat; AddOutput 3%nat;
               AddOutput 4%nat; AddInput 5%nat] (Mixer_new 2)) as (Hin & _).
  - split; [cbv; split; discriminate | done].
  - split; cbv; discriminate.
  - split; [exact Hin|]. split; reflexivity.
Defined.

Lemma at_app_new v s : at_ (v ++ [s]) (size v) = Ok s.
Proof.
  apply at_lookup; [apply size_nonneg|].
  unfold size. rewrite Nat2Z.id. by apply list_lookup_middle.
Qed.

Lemma at_app_old v s i :
  0 <= i < size v -> at_ (v ++ [s]) i = at_ v i.
Proof.
  intros Hi. destruct (at_inside v i Hi) as (p & Hp & ->).
  apply at_lookup; [lia|]. by apply lookup_app_l_Some.
Qed.

(** X5. After a successful [addInput(s)] on a device of non-negative
    capacity, the input count is one more, [getInput] at the new last
    index returns [s], every earlier index returns what it did before,
    and the outputs are untouched; the same holds for [addOutput]. *)
Theorem attach_then_get (d d' : Device) (s : ptr) :
  is_int (inputAmount d) -> is_int (outputAmount d) -> within_capacity d ->
  (Device_addInput s d = (Ok tt, d') ->
     getInputCount d' = getInputCount d + 1 /\
     getInput d' (getInputCount d) = Ok s /\
     (forall i, 0 <= i < getInputCount d -> getInput d' i = getInput d i) /\
     outputs d' = outputs d)
  /\ (Device_addOutput s d = (Ok tt, d') ->
     getOutputCount d' = getOutputCount d + 1 /\
     getOutput d' (getOutputCount d) = Ok s /\
     (forall i, 0 <= i < getOutputCount d -> getOutput d' i = getOutput d i) /\
     inputs d' = inputs d).
Proof.
  intros Hi%is_int_bounds Ho%is_int_bounds [Hin Hout].
  pose proof (size_nonneg (inputs d)). pose proof (size_nonneg (outputs d)).
  unfold getInputCount, getOutputCount, getInput, getOutput. split.
  - unfold Device_addInput. rewrite to_size_t_small by lia.
    destruct (Z.ltb_spec (size (inputs d)) (inputAmount d)); [|done].
    intros [= <-]. cbn [push_input inputs outputs].
    rewrite size_app. change (size [s]) with 1.
    rewrite !to_int_small by (unfold INT_MAX; lia).
    repeat split.
    + rewrite to_size_t_small by lia. apply at_app_new.
    + intros i Hlt. rewrite to_size_t_small by lia. by apply at_app_old.
  - unfold Device_addOutput. rewrite to_size_t_small by lia.
    destruct (Z.ltb_spec (size (outputs d)) (outputAmount d)); [|done].
    intros [= <-]. cbn [push_output inputs outputs].
    rewrite size_app. change (size [s]) with 1.
    rewrite !to_int_small by (unfold INT_MAX; lia).
    repeat split.
    + rewrite to_size_t_small by lia. apply at_app_new.
    + intros i Hlt. rewrite to_size_t_small by lia. by apply at_app_old.
Qed.

Lemma attach_then_get_witness :
  let d := mkDevice [1%nat] [2%nat] 1 2 in
  exists d', Device_addOutput 3%nat d = (Ok tt, d') /\
             getOutputCount d' = 2 /\ getOutput d' 1 = Ok 3%nat /\
             getOutput d' 0 = Ok 2%nat.
Proof.
  intros d. exists (push_output 3%nat d).
  destruct (attach_then_get d (push_output 3%nat d) 3%nat) as [_ Hout].
  - cbv. split; discriminate.
  - cbv. split; discriminate.
  - split; cbv; discriminate.
  - destruct (Hout eq_refl) as (Hcnt & Hnew & Hold & _).
    split; [reflexivity|]. split; [exact Hcnt|]. split; [exact Hnew|].
    rewrite (Hold 0); [reflexivity|]. cbv. split; [discriminate|reflexivity].
Defined.

(** X6. On a mixer within its capacity, or built with a negative
    [inputs_count], the [addInput] and [addOutput] that [Mixer] defines
    accept exactly the calls that the inherited [Device::addInput] and
    [Device::addOutput] accept, and leave the same device; a refusal is a
    [std::string] from the mixer's own and a [const char*] from the
    inherited ones. *)
Theorem Mixer_attach_agrees (this : Mixer) (a : attach) :
  Mixer_inv this -> vector_ok (inputs (Mixer_base this)) ->
  within_capacity (Mixer_base this) \/
    (_inputs_count this < 0 /\ size (outputs (Mixer_base this)) <= 1) ->
  (exists this', Mixer_attach a this = (Ok tt, this') /\
     Device_attach a (Mixer_base this) = (Ok tt, Mixer_base this') /\
     _inputs_count this' = _inputs_count this)
  \/ (exists msg msg',
       Mixer_attach a this = (Throw (ExnString msg), this) /\
       Device_attach a (Mixer_base this) = (Throw (ExnCStr msg'), Mixer_base this) /\
       classify (ExnString msg) = classify (ExnCStr msg') /\
       exists kind, classify (ExnString msg) = Some (PortLimitExceeded kind)).
Proof.
  intros (Hint%is_int_bounds & Hcnt & Hmo) Hv%vector_ok_bound Hcase.
  pose proof (size_nonneg (outputs (Mixer_base this))).
  destruct a as [s|s]; cbn [Mixer_attach Device_attach].
  - unfold Mixer_addInput, Device_addInput. rewrite Hcnt.
    destruct (Z.neg_nonneg_cases (_inputs_count this)) as [Hneg|Hpos].
    + rewrite to_size_t_negative by lia. left.
      do 2 Z_test. eexists. by repeat split.
    + rewrite to_size_t_small by lia.
      destruct Hcase as [[Hin _]|[? _]]; [|lia]. rewrite Hcnt in Hin.
      destruct (Z.eqb_spec (size (inputs (Mixer_base this))) (_inputs_count this)).
      * right. Z_test. eexists _, _. repeat split. by exists Input.
      * left. Z_test. eexists. by repeat split.
  - unfold Mixer_addOutput, Device_addOutput. rewrite Hmo.
    change (to_size_t MIXER_OUTPUTS) with 1.
    assert (size (outputs (Mixer_base this)) <= 1)
      by (destruct Hcase as [[_ Hout]|[_ ?]]; [by rewrite Hmo in Hout | done]).
    destruct (Z.eqb_spec (size (outputs (Mixer_base this))) 1).
    + right. Z_test. eexists _, _. repeat split. by exists Output.
    + left. Z_test. eexists. by repeat split.
Qed.

Lemma Mixer_attach_agrees_witness :
  let this := mkMixer (mkDevice [1%nat; 2%nat] [3%nat] 2 1) 2 in
  Mixer_attach (AddInput 4%nat) this =
    (Throw (ExnString "Too much inputs"), this) /\
  Device_attach (AddInput 4%nat) (Mixer_base this) =
    (Throw (ExnCStr "INPUT STREAM LIMIT!"), Mixer_base this).
Proof.
  intros this.
  destruct (Mixer_attach_agrees this (AddInput 4%nat))
    as [(this' & Hm & _)|(msg & msg' & Hm & Hd & _)].
  - split; [cbv; split; discriminate | done].
  - cbv. discriminate.
  - left. split; cbv; discriminate.
  - discriminate Hm.
  - assert (msg = "Too much inputs") as -> by (cbv in Hm; by injection Hm).
    assert (msg' = "INPUT STREAM LIMIT!") as -> by (cbv in Hd; by injection Hd).
    by split.
Defined.

(** ** Updates of wired devices *)

Lemma size_one v : size v = 1 -> exists o, v = [o].
Proof.
  destruct v as [|o [|o' v]]; unfold size; cbn [length]; intros Hs; try lia.
  by exists o.
Qed.

(** X7. A mixer within its capacity has at most one output; once it is
    attached, [updateOutputs] stores in it exactly the sum of the inputs'
    flows, accumulated in attachment order, and touches no other
    stream. *)
Theorem Mixer_output_is_sum (this : Mixer) (h : heap) (fs : list double) :
  Mixer_inv this -> within_capacity (Mixer_base this) ->
  flows h (inputs (Mixer_base this)) = Some fs ->
  outputs (Mixer_base this) <> [] ->
  all_live h (outputs (Mixer_base this)) ->
  exists o h',
    outputs (Mixer_base this) = [o] /\
    Mixer_updateOutputs this h = (Ok tt, h') /\
    flow h' o = Some (total fs) /\
    forall p, p <> o -> h' !! p = h !! p.
Proof.
  intros (_ & _ & Hmo) [_ Hcap] Hfs Hne Hlive.
  assert (Hone : size (outputs (Mixer_base this)) = 1).
  { rewrite Hmo in Hcap. unfold MIXER_OUTPUTS, size in *.
    destruct (outputs (Mixer_base this)); [done|]. cbn [length] in *. lia. }
  destruct (size_one _ Hone) as [o Ho].
  rewrite (Mixer_updateOutputs_run _ _ _ Hfs), Hone, Ho. cbn [empty].
  rewrite Ho in Hlive. rewrite for_each_setMassFlow by done.
  change (double_of_Z 1) with 1%float. rewrite div_one.
  exists o. eexists. split; [done|]. split; [done|]. split.
  - apply store_all_flow; [apply list_elem_of_here|]. by inversion Hlive.
  - intros p Hp. apply store_all_frame. by intros ->%list_elem_of_singleton.
Qed.

(** Scenario of the first mixer test: 10.0 and 5.0 give 15.0. *)
Lemma Mixer_output_is_sum_witness :
  let this := mkMixer (mkDevice [1%nat; 2%nat] [3%nat] 2 1) 2 in
  let h : heap := <[1%nat := mkStream 10 "s1"]>
                  (<[2%nat := mkStream 5 "s2"]>
                  (<[3%nat := mkStream 0 "s3"]> ∅)) in
  exists h', Mixer_updateOutputs this h = (Ok tt, h') /\
             flow h' 3%nat = Some 15%float.
Proof.
  intros this h.
  destruct (Mixer_output_is_sum this h [10; 5]%float)
    as (o & h' & Ho & Hrun & Hflow & _).
  - split; [cbv; split; discriminate | done].
  - split; cbv; discriminate.
  - reflexivity.
  - discriminate.
  - repeat constructor; by eexists.
  - injection Ho as <-. exists h'. split; [exact Hrun|]. rewrite Hflow. reflexivity.
Defined.

(** X8. With a single output attached, a divider, and a reactor of
    capacity one, copy the flow of the input to the output, also when
    input and output are one stream: an input that is not a NaN arrives
    as the same double, zeros and infinities with their sign, and a NaN
    arrives as a NaN. No other stream changes. *)
Theorem single_output_copies_input (h : heap) (p o : ptr) (m : double) :
  flow h p = Some m -> is_Some (h !! o) ->
  (forall (this : Divider) v,
     inputs (Divider_base this) = p :: v ->
     outputs (Divider_base this) = [o] ->
     exists h' m', Divider_updateOutputs this h = (Ok tt, h') /\
                flow h' o = Some m' /\
                (is_nan m = false -> m' = m) /\
                (is_nan m = true -> is_nan m' = true) /\
                forall q, q <> o -> h' !! q = h !! q)
  /\ (forall (this : Reactor) v,
     Reactor_inv this ->
     outputAmount (Reactor_base this) = 1 ->
     inputs (Reactor_base this) = p :: v ->
     outputs (Reactor_base this) = [o] ->
     exists h' m', Reactor_updateOutputs this h = (Ok tt, h') /\
                flow h' o = Some m' /\
                (is_nan m = false -> m' = m) /\
                (is_nan m = true -> is_nan m' = true) /\
                forall q, q <> o -> h' !! q = h !! q).
Proof.
  intros Hm Ho.
  assert (Hlive : all_live h [o]) by (by repeat constructor).
  split.
  - intros this v Hin Hout.
    rewrite (Divider_updateOutputs_run _ _ _ _ _ Hin ltac:(by rewrite Hout) Hm).
    rewrite Hout. rewrite for_each_setMassFlow by done.
    change (double_of_Z (size [o])) with 1%float. rewrite div_one.
    eexists _, m. split; [done|]. split; [|split; [done|split; [done|]]].
    + apply store_all_flow; [apply list_elem_of_here | done].
    + intros q Hq. apply store_all_frame. by intros ->%list_elem_of_singleton.
  - intros this v Hinv Hcap Hin Hout.
    rewrite (Reactor_updateOutputs_wired _ _ _ _ _ Hinv Hin Hm);
      [| by rewrite Hout, Hcap | by rewrite Hout].
    rewrite Hout, Hcap. change (double_of_Z 1) with 1%float. rewrite div_one.
    eexists _, m. split; [done|]. split; [|split; [done|split; [done|]]].
    + apply store_all_flow; [apply list_elem_of_here | done].
    + intros q Hq. apply store_all_frame. by intros ->%list_elem_of_singleton.
Qed.

(** The single-output divider test: 8.0 in, 8.0 out. *)
Lemma single_output_copies_input_witness :
  let h : heap := <[1%nat := mkStream 8 "s1"]>
                  (<[2%nat := mkStream 0 "s2"]> ∅) in
  exists h', Divider_updateOutputs
               (mkDivider (mkDevice [1%nat] [2%nat] 1 1)) h = (Ok tt, h') /\
             flow h' 2%nat = Some 8%float.
Proof.
  intros h.
  destruct (single_output_copies_input h 1%nat 2%nat 8%float) as [Hdiv _].
  - reflexivity.
  - by eexists.
  - destruct (Hdiv (mkDivider (mkDevice [1%nat] [2%nat] 1 1)) [])
      as (h' & m' & Hrun & Hflow & Hsame & _); [reflexivity..|].
    exists h'. split; [exact Hrun|]. rewrite Hflow, (Hsame eq_refl). reflexivity.
Defined.

(** X9. A reactor with fewer outputs attached than it declares fails
    half way: [updateOutputs] throws [std::out_of_range], but only after
    it has written the input's share through every output that is
    attached; the other streams are as before. *)
Theorem Reactor_failure_keeps_writes (this : Reactor) (h : heap) (p : ptr)
    (v : list ptr) (m : double) :
  Reactor_inv this ->
  inputs (Reactor_base this) = p :: v ->
  flow h p = Some m ->
  all_live h (outputs (Reactor_base this)) ->
  size (outputs (Reactor_base this)) < outputAmount (Reactor_base this) ->
  exists h', Reactor_updateOutputs this h = (Throw ExnOutOfRange, h') /\
    (forall o, o ∈ outputs (Reactor_base this) ->
       flow h' o = Some (m / double_of_Z (outputAmount (Reactor_base this)))%float) /\
    (forall q, q ∉ outputs (Reactor_base this) -> h' !! q = h !! q).
Proof.
  intros Hinv Hin Hm Hlive Hsize.
  rewrite (Reactor_updateOutputs_short _ _ _ _ _ Hinv Hin Hm Hsize Hlive).
  eexists. split; [done|]. split.
  - intros o Ho. apply store_all_flow; [done|]. by eapply Forall_forall in Hlive.
  - intros q Hq. by apply store_all_frame.
Qed.

(** Reactor(true) with one output attached: the output receives 5.0 and
    the call throws. *)
Lemma Reactor_failure_keeps_writes_witness :
  let this := mkReactor (mkDevice [1%nat] [2%nat] 1 2) in
  let h : heap := <[1%nat := mkStream 10 "s1"]>
                  (<[2%nat := mkStream 0 "s2"]> ∅) in
  exists h', Reactor_updateOutputs this h = (Throw ExnOutOfRange, h') /\
             flow h 2%nat = Some 0%float /\ flow h' 2%nat = Some 5%float.
Proof.
  intros this h.
  destruct (Reactor_failure_keeps_writes this h 1%nat [] 10%float)
    as (h' & Hrun & Hout & _).
  - apply (Reactor_new_inv true).
  - reflexivity.
  - reflexivity.
  - repeat constructor; by eexists.
  - reflexivity.
  - exists h'. split; [exact Hrun|]. split; [reflexivity|].
    rewrite (Hout 2%nat); [reflexivity | apply list_elem_of_here].
Defined.

Lemma writes_name (m : double) v : forall h r h' p,
  for_each (fun q => setMassFlow q m) v h = (r, h') ->
  name <$> h' !! p = name <$> h !! p.
Proof.
  induction v as [|q v IH]; intros h r h' p.
  - by intros [= _ <-].
  - rewrite writes_cons. destruct (h !! q) as [s|] eqn:Hq;
      [|by intros [= _ <-]].
    intros Hrun. rewrite (IH _ _ _ _ Hrun).
    destruct (decide (q = p)) as [->|Hne].
    + by rewrite lookup_insert_eq, Hq.
    + by rewrite lookup_insert_ne.
Qed.

(** Every way [updateOutputs] can end, as writes of one value through a
    part of the outputs. *)
Lemma updateOutputs_writes (dev : device) h r h' :
  device_inv dev ->
  updateOutputs dev h = (r, h') ->
  h' = h \/
  exists m v r', v ⊆ outputs (base dev) /\
    for_each (fun q => setMassFlow q m) v h = (r', h').
Proof.
  intros Hinv Hrun. destruct dev as [this|this|this];
    cbn [updateOutputs base device_inv] in *.
  - destruct (Mixer_updateOutputs_cases this h) as [[_ Hu]|(sum & _ & Hu)];
      rewrite Hu in Hrun; [left; by injection Hrun|].
    destruct (empty _); [left; by injection Hrun|].
    right. by eexists _, _, _.
  - rewrite (Reactor_updateOutputs_cases _ _ Hinv) in Hrun.
    destruct (inputs (Reactor_base this)) as [|p v]; [left; by injection Hrun|].
    destruct (h !! p); [|left; by injection Hrun].
    unfold bind in Hrun. right.
    destruct (for_each _ _ h) as [[[]|e|] h1] eqn:Hw.
    + assert (h' = h1) as -> by (by destruct (_ <=? _); injection Hrun as _ <-).
      eexists _, _, _. split; [apply subseteq_take | exact Hw].
    + injection Hrun as <- <-.
      eexists _, _, _. split; [apply subseteq_take | exact Hw].
    + injection Hrun as <- <-.
      eexists _, _, _. split; [apply subseteq_take | exact Hw].
  - rewrite Divider_updateOutputs_cases in Hrun.
    destruct (inputs (Divider_base this)) as [|p v]; [left; by injection Hrun|].
    destruct (empty _); [left; by injection Hrun|].
    destruct (h !! p); [|left; by injection Hrun].
    right. by eexists _, _, _.
Qed.

(** X10. Whether [updateOutputs] returns or throws, for each kind of
    device, it has changed nothing but the mass flow of streams attached
    as outputs: every other stream is as before, no name has changed, and
    no stream has appeared or gone. *)
Theorem updateOutputs_footprint (dev : device) (h : heap) (r : outcome unit)
    (h' : heap) :
  device_inv dev ->
  updateOutputs dev h = (r, h') ->
  r <> Undefined ->
  (forall p, p ∉ outputs (base dev) -> h' !! p = h !! p) /\
  (forall p, name <$> h' !! p = name <$> h !! p) /\
  dom h' = dom h.
Proof.
  intros Hinv Hrun _.
  assert (Hname : forall p, name <$> h' !! p = name <$> h !! p).
  { destruct (updateOutputs_writes dev h r h' Hinv Hrun)
      as [-> | (m & v & r' & _ & Hw)]; [done|].
    intros p. by eapply writes_name. }
  split; [|split; [done|]].
  - destruct (updateOutputs_writes dev h r h' Hinv Hrun)
      as [-> | (m & v & r' & Hsub & Hw)]; [done|].
    intros p Hp. eapply writes_frame; [exact Hw|]. intros Hin. by apply Hp, Hsub.
  - apply set_eq. intros p. rewrite !elem_of_dom.
    rewrite <- !(fmap_is_Some name). by rewrite Hname.
Qed.

(** A reactor that declares two outputs and has one: the update throws
    after writing the first output; the input and the names are as
    before. *)
Lemma updateOutputs_footprint_witness :
  let dev := DReactor (mkReactor (mkDevice [1%nat] [2%nat] 1 2)) in
  let h : heap := <[1%nat := mkStream 10 "s1"]>
                  (<[2%nat := mkStream 0 "s2"]> ∅) in
  exists h', updateOutputs dev h = (Throw ExnOutOfRange, h') /\
             h' !! 1%nat = h !! 1%nat /\
             name <$> h' !! 2%nat = Some "s2".
Proof.
  intros dev h.
  destruct (updateOutputs dev h) as [r h'] eqn:Hrun.
  assert (Hr : r = Throw ExnOutOfRange).
  { vm_compute in Hrun. by injection Hrun as <- _. }
  subst r.
  destruct (updateOutputs_footprint dev h (Throw ExnOutOfRange) h')
    as (Hframe & Hname & _).
  - apply (Reactor_new_inv true).
  - exact Hrun.
  - discriminate.
  - exists h'. split; [reflexivity|]. split.
    + apply Hframe. cbn. by intros [=]%list_elem_of_singleton.
    + by rewrite Hname.
Defined.

Lemma Device_wire_within (calls : list attach) : forall d,
  is_int (inputAmount d) -> is_int (outputAmount d) -> within_capacity d ->
  within_capacity (Device_wire calls d) /\
  inputAmount (Device_wire calls d) = inputAmount d /\
  outputAmount (Device_wire calls d) = outputAmount d.
Proof.
  induction calls as [|a calls IH]; intros d Hi Ho Hcap; [done|].
  cbn [Device_wire foldl]. fold (Device_wire calls (after (Device_attach a) d)).
  destruct (Device_attach_step a d Hi Ho Hcap) as (Hc1 & Hi1 & Ho1 & _).
  destruct (IH (after (Device_attach a) d)) as (Hc2 & Hi2 & Ho2);
    [by rewrite Hi1 | by rewrite Ho1 | done |].
  split; [done|]. by rewrite Hi2, Ho2.
Qed.

(** X12. A divider built with capacity 0 cannot be made to work: whatever
    attach calls follow, it has no output, and [updateOutputs] throws the
    precursor-missing exception and leaves the store alone. *)
Theorem Divider_zero_never_updates (calls : list attach) (h : heap) :
  let this := mkDivider (Device_wire calls (Divider_base (Divider_new 0))) in
  outputs (Divider_base this) = [] /\
  Divider_updateOutputs this h = (Throw (ExnCStr Divider_message), h) /\
  classify (ExnCStr Divider_message) = Some PrecursorMissing.
Proof.
  destruct (Device_wire_within calls (Divider_base (Divider_new 0)))
    as ([_ Hout] & _ & Hcap);
    [cbv; split; discriminate .. | split; cbv; discriminate |].
  rewrite Hcap in Hout. cbn [Divider_new Divider_base outputAmount] in Hout.
  assert (Hnil : outputs (Device_wire calls (Divider_base (Divider_new 0))) = []).
  { cbn [Divider_new Divider_base]. destruct (outputs _); [done|].
    unfold size in Hout. cbn [length] in Hout. lia. }
  cbn zeta. cbn [Divider_base]. split; [done|]. split; [|by vm_compute].
  rewrite Divider_updateOutputs_cases. cbn [Divider_base]. rewrite Hnil.
  by destruct (inputs _).
Qed.

(** X13. Splitting and mixing again: when the two outputs of a divider
    are the two inputs of a mixer, updating the divider and then the
    mixer brings the divider's input to the mixer's output unchanged,
    for every finite input of at least [2^-1021]. *)
Theorem split_then_mix (dv : Divider) (mx : Mixer) (h : heap)
    (p a b o : ptr) (v : list ptr) (m : double) :
  inputs (Divider_base dv) = p :: v ->
  outputs (Divider_base dv) = [a; b] ->
  inputs (Mixer_base mx) = [a; b] ->
  outputs (Mixer_base mx) = [o] ->
  flow h p = Some m ->
  all_live h [a; b; o] ->
  halves_exactly m = true ->
  exists h1 h2,
    Divider_updateOutputs dv h = (Ok tt, h1) /\
    Mixer_updateOutputs mx h1 = (Ok tt, h2) /\
    flow h2 o = Some m.
Proof.
  intros Hdi Hdo Hmi Hmo Hm Hlive Hhalf.
  apply (Forall_app _ [a; b] [o]) in Hlive as [Hab Ho].
  rewrite (Divider_updateOutputs_run _ _ _ _ _ Hdi ltac:(by rewrite Hdo) Hm).
  rewrite Hdo, for_each_setMassFlow by done.
  change (double_of_Z (size [a; b])) with 2%float.
  set (h1 := store_all (m / 2) [a; b] h).
  assert (Hfs : flows h1 (inputs (Mixer_base mx)) = Some [m / 2; m / 2]%float).
  { rewrite Hmi. by apply (flows_store_all h [a; b]). }
  assert (Ho1 : all_live h1 [o]).
  { rewrite Forall_singleton in Ho. apply Forall_singleton.
    unfold h1. rewrite store_all_lookup.
    destruct (decide _); [by rewrite fmap_is_Some | done]. }
  exists h1. eexists. split; [done|].
  rewrite (Mixer_updateOutputs_run _ _ _ Hfs), Hmo. cbn [empty].
  rewrite for_each_setMassFlow by done. split; [done|].
  rewrite store_all_flow;
    [|apply list_elem_of_here | by inversion Ho1].
  change (double_of_Z (size [o])) with 1%float. rewrite div_one. f_equal.
  assert (Hpos : positive_finite m = true).
  { unfold positive_finite, halves_exactly in *.
    apply andb_prop in Hhalf as [Hlo Hhi]. rewrite Hhi, andb_true_r.
    destruct (halves_exactly_spec m) as (mx' & ex & Hsf & _);
      [unfold halves_exactly; by rewrite Hlo, Hhi|].
    by rewrite ltb_spec, Hsf. }
  destruct (total_shares m 2 Hpos) as [_ Htwo].
  destruct (Htwo eq_refl) as [_ Hexact]. by apply Hexact.
Qed.

(** Divider(2) into Mixer(2): 10.0 comes back as 10.0. *)
Lemma split_then_mix_witness :
  let dv := mkDivider (mkDevice [1%nat] [2%nat; 3%nat] 1 2) in
  let mx := mkMixer (mkDevice [2%nat; 3%nat] [4%nat] 2 1) 2 in
  let h : heap := <[1%nat := mkStream 10 "s1"]>
                  (<[2%nat := mkStream 0 "s2"]>
                  (<[3%nat := mkStream 0 "s3"]>
                  (<[4%nat := mkStream 0 "s4"]> ∅))) in
  exists h1 h2,
    Divider_updateOutputs dv h = (Ok tt, h1) /\
    Mixer_updateOutputs mx h1 = (Ok tt, h2) /\
    flow h2 4%nat = Some 10%float.
Proof.
  intros dv mx h.
  apply (split_then_mix dv mx h 1%nat 2%nat 3%nat 4%nat [] 10%float);
    try reflexivity.
  repeat constructor; by eexists.
Defined.

(** X14. A device just built has no port: both counts are 0, every
    [getInput] and [getOutput] throws [std::out_of_range], and
    [updateOutputs] throws and leaves the store alone: the mixer and the
    divider their precursor-missing exception, the reactor
    [std::out_of_range]. *)
Theorem fresh_device (n i : Z) (b : bool) (h : heap) :
  (forall d, d = Mixer_base (Mixer_new n) \/ d = Reactor_base (Reactor_new b) \/
             d = Divider_base (Divider_new n) ->
     getInputCount d = 0 /\ getOutputCount d = 0 /\
     getInput d i = Throw ExnOutOfRange /\ getOutput d i = Throw ExnOutOfRange)
  /\ Mixer_updateOutputs (Mixer_new n) h =
       (Throw (ExnString "Should set outputs before update"), h)
  /\ Divider_updateOutputs (Divider_new n) h = (Throw (ExnCStr Divider_message), h)
  /\ Reactor_updateOutputs (Reactor_new b) h = (Throw ExnOutOfRange, h).
Proof.
  assert (Hat : at_ [] (to_size_t i) = Throw ExnOutOfRange).
  { apply at_past_end. unfold to_size_t. change (size []) with 0.
    apply Z.mod_pos_bound. lia. }
  split; [|done].
  by intros d [-> | [-> | ->]].
Qed.

(** X15. On a device wired through [Device::addInput] and
    [Device::addOutput] from a state within its capacities,
    [getInputCount] and [getOutputCount] are the numbers of attached
    streams, without wrap-around, and never exceed the capacities. *)
Theorem wired_counts (calls : list attach) (d : Device) :
  is_int (inputAmount d) -> is_int (outputAmount d) -> within_capacity d ->
  let d' := Device_wire calls d in
  getInputCount d' = size (inputs d') /\
  getOutputCount d' = size (outputs d') /\
  0 <= getInputCount d' <= inputAmount d /\
  0 <= getOutputCount d' <= outputAmount d.
Proof.
  intros Hi Ho Hcap.
  destruct (Device_wire_within calls d Hi Ho Hcap) as ([Hin Hout] & Hia & Hoa).
  apply is_int_bounds in Hi, Ho. rewrite Hia in Hin. rewrite Hoa in Hout.
  cbn zeta. unfold getInputCount, getOutputCount.
  pose proof (size_nonneg (inputs (Device_wire calls d))).
  pose proof (size_nonneg (outputs (Device_wire calls d))).
  rewrite !to_int_small by (unfold INT_MAX; lia). lia.
Qed.

(** The wiring of the reactor test: one input, two outputs. *)
Lemma wired_counts_witness :
  let d' := Device_wire [AddInput 1%nat; AddOutput 2%nat; AddOutput 3%nat]
                        (Reactor_base (Reactor_new true)) in
  getInputCount d' = 1 /\ getOutputCount d' = 2.
Proof.
  intros d'.
  destruct (wired_counts [AddInput 1%nat; AddOutput 2%nat; AddOutput 3%nat]
              (Reactor_base (Reactor_new true))) as (Hi & Ho & _).
  - cbv. split; discriminate.
  - cbv. split; discriminate.
  - split; cbv; discriminate.
  - unfold d'. rewrite Hi, Ho. split; reflexivity.
Defined.
